(** * A verified model of the compiler-tokenizer scanner (main.cpp)

    The scanner of [main.cpp] is embedded function by function: the
    classification helpers ([isKeyword], [isDelimiter], [isOperatorString]),
    the look-ahead helper [peekChar], the three literal parsers
    ([parseCharLiteral], [parseStringLiteral], [parseNumber]) and the main
    loop of [tokenize].

    Modelling conventions.
    - A [std::string] is a [string] of 8-bit [ascii] code units; [s[i]] is
      [char_at s i].  An index ([size_t]) is a [nat]: a buffer never comes near
      2^64 bytes, so no index arithmetic of the program wraps.
    - The [<cctype>] predicates are those of the "C" locale, which is the
      locale in force since the program never calls [setlocale].
    - A reference parameter ([size_t &i], [int &line]) becomes a value that is
      passed in and returned.
    - The line counter ([int], 32 bits) is a [Z] between [INT_MIN] and
      [INT_MAX]; [++line] is [incr], with the wrap-around from [INT_MAX] to
      [INT_MIN] that two's complement hardware gives it.  The counter starts at
      1 and is incremented at most once per line feed of the input, so it
      wraps only on a buffer with 2^31 - 1 line feeds or more (lemmas
      [tokenizeLoop_line_bound] and [tokenize_apart]).
    - Every [while] loop is a structural recursion on a fuel argument; each
      comes with a lemma that the fuel it is run with is never what ends it. *)

From Stdlib Require Import Bool Arith ZArith Lia List Ascii String.
From Stdlib Require Import DecimalString.
Import ListNotations.

Local Open Scope string_scope.
Local Open Scope list_scope.
Local Open Scope bool_scope.
Local Open Scope nat_scope.

(** ** Characters *)

Definition NUL : ascii := "000"%char.
Definition LF : ascii := "010"%char.
Definition DQUOTE : ascii := "034"%char.
Definition SQUOTE : ascii := "'"%char.
Definition BACKSLASH : ascii := "\"%char.

(** [<cctype>] in the "C" locale, on the code of an [unsigned char]. *)
Definition isdigit (c : ascii) : bool :=
  let k := nat_of_ascii c in (48 <=? k) && (k <=? 57).

Definition isalpha (c : ascii) : bool :=
  let k := nat_of_ascii c in
  ((65 <=? k) && (k <=? 90)) || ((97 <=? k) && (k <=? 122)).

Definition isalnum (c : ascii) : bool := isalpha c || isdigit c.

Definition isspace (c : ascii) : bool :=
  let k := nat_of_ascii c in (k =? 32) || ((9 <=? k) && (k <=? 13)).

(** ** Strings as the program uses them *)

(** [s[i]]; reading at [s.size()] gives the terminating NUL. *)
Definition char_at (s : string) (i : nat) : ascii :=
  match String.get i s with
  | Some c => c
  | None => NUL
  end.

(** [lexeme.push_back(c)] *)
Definition push_back (s : string) (c : ascii) : string :=
  (s ++ String c EmptyString)%string.

(** [lexeme.erase(pos)]: drops everything from [pos] on. *)
Definition erase (s : string) (pos : nat) : string :=
  String.substring 0 pos s.

(** [s.empty()] *)
Definition empty (s : string) : bool :=
  match s with
  | EmptyString => true
  | String _ _ => false
  end.

(** [std::any_of(s.begin(), s.end(), p)] *)
Fixpoint any_of (p : ascii -> bool) (s : string) : bool :=
  match s with
  | EmptyString => false
  | String c s' => p c || any_of p s'
  end.

(** [s.find(c)], with [None] for [string::npos]. *)
Fixpoint find (s : string) (c : ascii) : option nat :=
  match s with
  | EmptyString => None
  | String d s' =>
      if Ascii.eqb d c then Some 0
      else match find s' c with
           | Some k => Some (S k)
           | None => None
           end
  end.

(** ** Token types *)

Module TokenType.
Inductive t : Set :=
| Keyword
| Identifier
| Number
| Operator
| Delimiter
| String
| Char
| Unknown.
End TokenType.

Record Token : Set := mkToken {
  lexeme : string;
  type : TokenType.t;
  line : Z
}.

(** ** Printing a token type *)

(** [tokenTypeToString] *)
Definition tokenTypeToString (t : TokenType.t) : string :=
  match t with
  | TokenType.Keyword => "Keyword"
  | TokenType.Identifier => "Identifier"
  | TokenType.Number => "Number"
  | TokenType.Operator => "Operator"
  | TokenType.Delimiter => "Delimiter"
  | TokenType.String => "String"
  | TokenType.Char => "Char"
  | _ => "Unknown"
  end.

(** ** Classification helpers *)

Definition keywords : list string :=
  [ "int"; "float"; "double"; "char"; "long"; "short"; "bool"; "void";
    "if"; "else"; "for"; "while"; "do"; "return"; "switch"; "case"; "break";
    "continue";
    "class"; "struct"; "public"; "private"; "protected";
    "include"; "namespace"; "using" ].

Definition isKeyword (s : string) : bool :=
  existsb (String.eqb s) keywords.

Definition delims : string := ";,(){}[]".

Definition isDelimiter (c : ascii) : bool :=
  match find delims c with
  | Some _ => true
  | None => false
  end.

Definition ops : list string :=
  [ "<<="; ">>=";
    "=="; "!="; "<="; ">="; "++"; "--"; "+="; "-="; "*="; "/="; "%="; "<<";
    ">>"; "&&"; "||";
    "+"; "-"; "*"; "/"; "%"; "="; "<"; ">"; "!"; "&"; "|"; "^"; "~" ].

Definition isOperatorString (s : string) : bool :=
  existsb (String.eqb s) ops.

(** ** The line counter *)

(** The bounds of [int]. *)
Definition INT_MAX : Z := 2147483647.
Definition INT_MIN : Z := (-2147483648)%Z.

(** The [int] that holds the integer [z] modulo 2^32. *)
Definition wrap_int (z : Z) : Z :=
  ((z - INT_MIN) mod 4294967296 + INT_MIN)%Z.

(** [++line] *)
Definition incr (line : Z) : Z := wrap_int (line + 1).

(** ** Look-ahead *)

Definition peekChar (s : string) (i : nat) (offset : nat) : ascii :=
  let idx := i + offset in
  if idx <? String.length s then char_at s idx else NUL.

(** ** Character literals *)

Definition parseCharLiteral (s : string) (i : nat) (line : Z)
  : string * nat * Z :=
  let n := String.length s in
  let lexeme := push_back EmptyString (char_at s i) in
  let i := S i in
  if n <=? i then (lexeme, i, line)
  else
    let '(lexeme, i, line) :=
      if Ascii.eqb (char_at s i) BACKSLASH then
        let lexeme := push_back lexeme (char_at s i) in
        let i := S i in
        if i <? n then (push_back lexeme (char_at s i), S i, line)
        else (lexeme, i, line)
      else if Ascii.eqb (char_at s i) LF then
        (push_back lexeme (char_at s i), S i, incr line)
      else
        (push_back lexeme (char_at s i), S i, line) in
    if (i <? n) && Ascii.eqb (char_at s i) SQUOTE
    then (push_back lexeme (char_at s i), S i, line)
    else (lexeme, i, line).

(** ** String literals *)

(** The [while (i < n)] loop of [parseStringLiteral]. *)
Fixpoint stringBody (fuel : nat) (s : string) (i : nat) (line : Z)
  (lexeme : string) : string * nat * Z :=
  match fuel with
  | O => (lexeme, i, line)
  | S fuel' =>
      let n := String.length s in
      if i <? n then
        let c := char_at s i in
        let lexeme := push_back lexeme c in
        let i := S i in
        if Ascii.eqb c BACKSLASH then
          if i <? n
          then stringBody fuel' s (S i) line (push_back lexeme (char_at s i))
          else stringBody fuel' s i line lexeme
        else if Ascii.eqb c DQUOTE then (lexeme, i, line)
        else if Ascii.eqb c LF then stringBody fuel' s i (incr line) lexeme
        else stringBody fuel' s i line lexeme
      else (lexeme, i, line)
  end.

Definition parseStringLiteral (s : string) (i : nat) (line : Z)
  : string * nat * Z :=
  let n := String.length s in
  let lexeme := push_back EmptyString (char_at s i) in
  let i := S i in
  stringBody n s i line lexeme.

(** ** Numbers *)

(** The loop [while (i < n && isdigit(s[i]))], which parseNumber runs three
    times; [seen] is the flag the body sets ([hasDigits] or [expDigits]). *)
Fixpoint digitRun (fuel : nat) (s : string) (i : nat) (lexeme : string)
  (seen : bool) : string * nat * bool :=
  match fuel with
  | O => (lexeme, i, seen)
  | S fuel' =>
      if (i <? String.length s) && isdigit (char_at s i)
      then digitRun fuel' s (S i) (push_back lexeme (char_at s i)) true
      else (lexeme, i, seen)
  end.

Definition parseNumber (s : string) (i : nat) : string * nat :=
  let n := String.length s in
  (* integer part *)
  let '(lexeme, i, hasDigits) := digitRun n s i EmptyString false in
  (* fractional part *)
  let '(lexeme, i, hasDigits) :=
    if (i <? n) && Ascii.eqb (char_at s i) "."
    then digitRun n s (S i) (push_back lexeme ".") hasDigits
    else (lexeme, i, hasDigits) in
  (* exponent part *)
  if (i <? n) && (Ascii.eqb (char_at s i) "e" || Ascii.eqb (char_at s i) "E")
  then
    let save := i in
    let lexeme := push_back lexeme (char_at s i) in
    let i := S i in
    let '(lexeme, i) :=
      if (i <? n)
         && (Ascii.eqb (char_at s i) "+" || Ascii.eqb (char_at s i) "-")
      then (push_back lexeme (char_at s i), S i)
      else (lexeme, i) in
    let '(lexeme, i, expDigits) := digitRun n s i lexeme false in
    if negb expDigits
    then (erase lexeme (String.length lexeme - 1), save)
    else (lexeme, i)
  else (lexeme, i).

(** ** The main loop *)

(** [while (i < n && code[i] != '\n') ++i;] *)
Fixpoint skipLine (fuel : nat) (code : string) (i : nat) : nat :=
  match fuel with
  | O => i
  | S fuel' =>
      if (i <? String.length code) && negb (Ascii.eqb (char_at code i) LF)
      then skipLine fuel' code (S i)
      else i
  end.

(** [while (i + 1 < n && !(code[i] == '*' && code[i+1] == '/'))] with its
    body, which counts the line feeds it passes. *)
Fixpoint skipBlock (fuel : nat) (code : string) (i : nat) (line : Z)
  : nat * Z :=
  match fuel with
  | O => (i, line)
  | S fuel' =>
      if (i + 1 <? String.length code)
         && negb (Ascii.eqb (char_at code i) "*"
                  && Ascii.eqb (char_at code (i + 1)) "/")
      then skipBlock fuel' code (S i)
             (if Ascii.eqb (char_at code i) LF then incr line else line)
      else (i, line)
  end.

(** [while (i < n && (isalnum(code[i]) || code[i] == '_'))] *)
Fixpoint identRun (fuel : nat) (code : string) (i : nat) (id : string)
  : string * nat :=
  match fuel with
  | O => (id, i)
  | S fuel' =>
      if (i <? String.length code)
         && (isalnum (char_at code i) || Ascii.eqb (char_at code i) "_")
      then identRun fuel' code (S i) (push_back id (char_at code i))
      else (id, i)
  end.

(** The inner [for (k = 0; k < len; ++k)] loop that builds the window [s]:
    [cnt] iterations are left, the next offset is [k]. *)
Fixpoint opWindowFrom (code : string) (i k cnt : nat) (s : string) : string :=
  match cnt with
  | O => s
  | S cnt' =>
      let ch := peekChar code i k in
      if Ascii.eqb ch NUL then EmptyString
      else opWindowFrom code i (S k) cnt' (push_back s ch)
  end.

Definition opWindow (code : string) (i len : nat) : string :=
  opWindowFrom code i 0 len EmptyString.

(** The outer [for (len = ...; len >= 1; --len)] loop; [None] stands for
    [matchedOp == false]. *)
Fixpoint matchOperator (code : string) (i len : nat) : option string :=
  match len with
  | O => None
  | S len' =>
      let s := opWindow code i len in
      if negb (empty s) && isOperatorString s then Some s
      else matchOperator code i len'
  end.

(** What one iteration hands back: the token it pushed, if any, and the new
    cursor and line counter. *)
Definition Step : Set := (option Token * nat * Z)%type.

(** Rules 8 to 10: operator, delimiter, unknown.  [c] is the character the
    iteration read at its start. *)
Definition operatorRule (code : string) (c : ascii) (i : nat) (line : Z)
  : Step :=
  match matchOperator code i 3 with
  | Some s =>
      (Some (mkToken s TokenType.Operator line), i + String.length s, line)
  | None =>
      let s := String c EmptyString in
      if isDelimiter c
      then (Some (mkToken s TokenType.Delimiter line), S i, line)
      else (Some (mkToken s TokenType.Unknown line), S i, line)
  end.

(** The body of [while (i < n)]. *)
Definition scanStep (code : string) (i : nat) (line : Z) : Step :=
  let n := String.length code in
  let c := char_at code i in
  if isspace c then
    (None, S i, if Ascii.eqb c LF then incr line else line)
  else if Ascii.eqb c "/" && Ascii.eqb (peekChar code i 1) "/" then
    (None, skipLine n code (i + 2), line)
  else if Ascii.eqb c "/" && Ascii.eqb (peekChar code i 1) "*" then
    let '(i, line) := skipBlock n code (i + 2) line in
    (None, if i + 1 <? n then i + 2 else i, line)
  else if Ascii.eqb c SQUOTE then
    let '(lex, i, line) := parseCharLiteral code i line in
    (Some (mkToken lex TokenType.Char line), i, line)
  else if Ascii.eqb c DQUOTE then
    let '(lex, i, line) := parseStringLiteral code i line in
    (Some (mkToken lex TokenType.String line), i, line)
  else if isalpha c || Ascii.eqb c "_" then
    let '(id, i) := identRun n code i EmptyString in
    if isKeyword id
    then (Some (mkToken id TokenType.Keyword line), i, line)
    else (Some (mkToken id TokenType.Identifier line), i, line)
  else if isdigit c || (Ascii.eqb c "." && isdigit (peekChar code i 1)) then
    let '(num, i) := parseNumber code i in
    if negb (empty num) && any_of isdigit num
    then (Some (mkToken num TokenType.Number line), i, line)
    else operatorRule code c i line
  else operatorRule code c i line.

(** [tokens.push_back] of what the iteration produced. *)
Definition push_token (tokens : list Token) (t : option Token) : list Token :=
  match t with
  | Some tk => tokens ++ [tk]
  | None => tokens
  end.

Fixpoint tokenizeLoop (fuel : nat) (code : string) (i : nat) (line : Z)
  (tokens : list Token) : list Token * nat * Z :=
  match fuel with
  | O => (tokens, i, line)
  | S fuel' =>
      if i <? String.length code then
        let '(t, i', line') := scanStep code i line in
        tokenizeLoop fuel' code i' line' (push_token tokens t)
      else (tokens, i, line)
  end.

Definition tokenize (code : string) : list Token :=
  fst (fst (tokenizeLoop (String.length code) code 0 1%Z [])).

(** ** The rows of the report *)

(** [string(k, ' ')] *)
Fixpoint spaces (k : nat) : string :=
  match k with
  | O => EmptyString
  | S k' => String " " (spaces k')
  end.

(** [left << setw(w) << s]: [s], then fill characters up to width [w]; a
    longer [s] is written whole. *)
Definition setw_left (w : nat) (s : string) : string :=
  (s ++ spaces (w - String.length s))%string.

(** [cout << line] for an [int]. *)
Definition decimal (z : Z) : string := NilZero.string_of_int (Z.to_int z).

(** The body of [for (auto &t : tokens)] in [main]: one row of the table,
    with [tokWidth = 30], [typeWidth = 15] and [lineWidth = 6]. *)
Definition formatRow (t : Token) : string :=
  (setw_left 30 (lexeme t) ++ " | "
   ++ setw_left 15 (tokenTypeToString (type t)) ++ " | "
   ++ setw_left 6 (decimal (line t)) ++ String LF EmptyString)%string.


(** * Specification vocabulary *)

(** ** Spans of the buffer *)

(** The characters of the buffer from position [i] up to, not including,
    position [j]: what a cursor moving from [i] to [j] passes over. *)
Definition span (code : string) (i j : nat) : string :=
  String.substring i (j - i) code.

(** ** Physical line numbers *)

(** The number of line feeds among the first [i] characters of the buffer,
    and the 1-based number of the line that position [i] lies on. *)
Fixpoint lineFeedsBefore (code : string) (i : nat) : Z :=
  match i with
  | O => 0%Z
  | S k =>
      if (k <? String.length code) && Ascii.eqb (char_at code k) LF
      then (lineFeedsBefore code k + 1)%Z
      else lineFeedsBefore code k
  end.

Definition lineOf (code : string) (i : nat) : Z :=
  (1 + lineFeedsBefore code i)%Z.

(** The counter [ln] can take every line feed between the cursors [i] and
    [i'] without leaving the range of [int]. *)
Definition noWrap (code : string) (i : nat) (ln : Z) (i' : nat) : Prop :=
  (INT_MIN <= ln)%Z
  /\ (ln + (lineFeedsBefore code i' - lineFeedsBefore code i) <= INT_MAX)%Z.

(** The buffer has fewer than 2^31 - 1 line feeds: its last line has a number
    an [int] can hold. *)
Definition fewLineFeeds (code : string) : Prop :=
  (lineOf code (String.length code) <= INT_MAX)%Z.

(** ** Line feeds as escape payloads *)


(** Reading [s] from left to right, each backslash taking the character
    after it as its payload: some payload is a line feed. *)
Fixpoint escapedLF (s : string) : bool :=
  match s with
  | EmptyString => false
  | String c s' =>
      if Ascii.eqb c BACKSLASH then
        match s' with
        | EmptyString => false
        | String d s'' => Ascii.eqb d LF || escapedLF s''
        end
      else escapedLF s'
  end.

(** ** Numbers and operators *)

(** The condition under which the main loop enters the numeric branch. *)
Definition numberStart (code : string) (i : nat) : bool :=
  isdigit (char_at code i)
  || (Ascii.eqb (char_at code i) "." && isdigit (peekChar code i 1)).

(** The exponent marker at [j] is followed by a sign and then by no digit:
    the case in which parseNumber rolls back after pushing two characters. *)
Definition signedRollback (code : string) (j : nat) : Prop :=
  S j < String.length code
  /\ (char_at code j = "e"%char \/ char_at code j = "E"%char)
  /\ (char_at code (S j) = "+"%char \/ char_at code (S j) = "-"%char)
  /\ (S (S j) <? String.length code) && isdigit (char_at code (S (S j)))
     = false.

Definition isNUL (c : ascii) : bool := Ascii.eqb c NUL.

(** Every operator has one to three characters, none of them a NUL, a line
    feed or any other white space. *)
Definition wellFormedOp (s : string) : bool :=
  (1 <=? String.length s) && (String.length s <=? 3)
  && negb (any_of isNUL s) && negb (any_of isspace s).

(** The window of [len] characters at [i] lies inside the buffer and holds
    no NUL: the case in which the inner loop does not clear [s]. *)
Definition windowOk (code : string) (i len : nat) : bool :=
  (i + len <=? String.length code)
  && negb (any_of isNUL (String.substring i len code)).

(** ** One iteration of the main loop *)

(** What holds of a token [tk] pushed by an iteration that moved the cursor
    from [i] to [i'] and the line counter from [ln] to [ln']. *)
Definition tokenOk (code : string) (i : nat) (ln : Z) (i' : nat) (ln' : Z)
  (tk : Token) : Prop :=
  empty (lexeme tk) = false
  /\ line tk = ln'
  /\ (type tk <> TokenType.String -> type tk <> TokenType.Char ->
      ln' = ln /\ lineFeedsBefore code i' = lineFeedsBefore code i)
  /\ (lexeme tk = span code i i'
      \/ (type tk = TokenType.Number
          /\ lexeme tk = span code i (S i') /\ signedRollback code i')).

Definition isLiteral (t : TokenType.t) : bool :=
  match t with
  | TokenType.String | TokenType.Char => true
  | _ => false
  end.

(** The iteration pushed no String or Char token whose lexeme has a line
    feed as an escape payload. *)
Definition keepsCount (t : option Token) : bool :=
  match t with
  | Some tk => negb (isLiteral (type tk) && escapedLF (lexeme tk))
  | None => true
  end.

Definition stepOk (code : string) (i : nat) (ln : Z) (st : Step) : Prop :=
  let '(t, i', ln') := st in
  i < i' <= String.length code
  /\ (noWrap code i ln i' -> (ln <= ln')%Z)
  /\ (noWrap code i ln i' ->
      (ln' - ln <= lineFeedsBefore code i' - lineFeedsBefore code i)%Z)
  /\ (noWrap code i ln i' -> keepsCount t = true ->
      (ln' - ln = lineFeedsBefore code i' - lineFeedsBefore code i)%Z)
  /\ (forall tk, t = Some tk -> tokenOk code i ln i' ln' tk).

(** ** The run of the main loop *)

(** One iteration of [while (i < n)]: the cursor and line counter it starts
    from, the token it pushes, if any, and the cursor and line counter it
    leaves behind. *)
Record Iter : Set := mkIter {
  it_pos : nat;
  it_line : Z;
  it_token : option Token;
  it_pos' : nat;
  it_line' : Z
}.

(** The iterations [tokenizeLoop] goes through, in order. *)
Fixpoint iterationsFrom (fuel : nat) (code : string) (i : nat) (ln : Z)
  : list Iter :=
  match fuel with
  | O => []
  | S fuel' =>
      if i <? String.length code then
        let '(t, i', ln') := scanStep code i ln in
        mkIter i ln t i' ln' :: iterationsFrom fuel' code i' ln'
      else []
  end.

Definition iterations (code : string) : list Iter :=
  iterationsFrom (String.length code) code 0 1%Z.

Definition pushed (it : Iter) : list Token :=
  match it_token it with
  | Some tk => [tk]
  | None => []
  end.

Definition tokensOf (its : list Iter) : list Token := flat_map pushed its.


(** What an iteration accounts for: the lexeme of the token it pushed, or
    the white space or comment it skipped. *)
Definition piece (code : string) (it : Iter) : string :=
  match it_token it with
  | Some tk => lexeme tk
  | None => span code (it_pos it) (it_pos' it)
  end.

Definition flatten (l : list string) : string :=
  fold_right String.append EmptyString l.

(** The lexemes and the skipped spans of a scan, concatenated in order. *)
Definition coverage (code : string) : string :=
  flatten (map (piece code) (iterations code)).

(** The cursors the pushed tokens leave behind: position by position, the
    cursor at the moment the token at that position of the output is
    pushed. *)
Definition cursorsAfter (its : list Iter) : list nat :=
  flat_map (fun it => match it_token it with
                      | Some _ => [it_pos' it]
                      | None => []
                      end) its.

(** ** The claims, as predicates *)

Definition identChar (c : ascii) : bool := isalnum c || Ascii.eqb c "_".

(** [i, j) is a maximal run of alphanumeric/underscore characters that starts
    with a letter or an underscore. *)
Definition maximalRun (code : string) (i j : nat) : Prop :=
  i < j <= String.length code
  /\ isalpha (char_at code i) || Ascii.eqb (char_at code i) "_" = true
  /\ (forall k, i <= k < j -> identChar (char_at code k) = true)
  /\ (i = 0 \/ identChar (char_at code (i - 1)) = false)
  /\ (j = String.length code \/ identChar (char_at code j) = false).

(** Every maximal run gets a token of its own. *)
Definition everyRunIsOneToken (code : string) : Prop :=
  forall i j, maximalRun code i j ->
    exists tk, In tk (tokenize code) /\ lexeme tk = span code i j.

Definition keywordSetHas25Words : Prop := List.length keywords = 25.

(** The lines of the tokens never decrease along the output. *)
Definition linesNondecreasing (code : string) : Prop :=
  forall i j A B,
    nth_error (tokenize code) i = Some A ->
    nth_error (tokenize code) j = Some B ->
    i < j -> (line A <= line B)%Z.


(** None of rules 1 to 7 applies at position [i]. *)
Definition reachesOperatorRule (code : string) (i : nat) : bool :=
  let c := char_at code i in
  negb (isspace c)
  && negb (Ascii.eqb c "/" && Ascii.eqb (peekChar code i 1) "/")
  && negb (Ascii.eqb c "/" && Ascii.eqb (peekChar code i 1) "*")
  && negb (Ascii.eqb c SQUOTE)
  && negb (Ascii.eqb c DQUOTE)
  && negb (isalpha c || Ascii.eqb c "_")
  && negb (numberStart code i).

(** No closing marker at or after position [i]. *)
Definition unterminatedFrom (code : string) (i : nat) : Prop :=
  forall k, i <= k ->
    Ascii.eqb (char_at code k) "*" && Ascii.eqb (char_at code (k + 1)) "/"
    = false.

(** ** Sample buffers *)

(** A string literal with a line feed inside: ["a<LF>b"]. *)
Definition twoLineString : string :=
  String DQUOTE
    (String "a" (String LF (String "b" (String DQUOTE EmptyString)))).


(** The token of [twoLineString] and the iteration that pushes it. *)
Definition twoLineStringToken : Token :=
  mkToken twoLineString TokenType.String 2.


(** The iteration that pushes the keyword of ["int x"]. *)
Definition intKeywordIter : Iter :=
  mkIter 0 1 (Some (mkToken "int" TokenType.Keyword 1)) 3 1.

(** Two identifiers on two lines: [a<LF>b]. *)
Definition twoLines : string := String "a" (String LF "b").

(** [k] line feeds. *)
Fixpoint lineFeeds (k : nat) : string :=
  match k with
  | O => EmptyString
  | S k' => String LF (lineFeeds k')
  end.

(** Two identifiers [k] lines apart: [a], [k] line feeds, [b]. *)
Definition apart (k : nat) : string := String "a" (lineFeeds k ++ "b").

(** ** Shapes of lexemes *)

(** [std::all_of(s.begin(), s.end(), p)] *)
Fixpoint all_of (p : ascii -> bool) (s : string) : bool :=
  match s with
  | EmptyString => true
  | String c s' => p c && all_of p s'
  end.

(** The first character of a string. *)
Definition first (s : string) : option ascii :=
  match s with
  | EmptyString => None
  | String c _ => Some c
  end.

Definition identStart (c : ascii) : bool := isalpha c || Ascii.eqb c "_".

(** The characters a numeric lexeme is made of. *)
Definition numberChar (c : ascii) : bool :=
  isdigit c || Ascii.eqb c "." || Ascii.eqb c "e" || Ascii.eqb c "E"
  || Ascii.eqb c "+" || Ascii.eqb c "-".

(** Which rule pushed the token [tk] of an iteration that started at cursor
    [i] with line counter [ln] and left cursor [i'] and counter [ln']. *)
Definition pushedBy (code : string) (i : nat) (ln : Z) (tk : Token)
  (i' : nat) (ln' : Z) : Prop :=
  let c := char_at code i in
  match type tk with
  | TokenType.Char =>
      c = SQUOTE /\ parseCharLiteral code i ln = (lexeme tk, i', ln')
  | TokenType.String =>
      c = DQUOTE /\ parseStringLiteral code i ln = (lexeme tk, i', ln')
  | TokenType.Keyword =>
      identStart c = true
      /\ identRun (String.length code) code i EmptyString = (lexeme tk, i')
      /\ isKeyword (lexeme tk) = true
  | TokenType.Identifier =>
      identStart c = true
      /\ identRun (String.length code) code i EmptyString = (lexeme tk, i')
      /\ isKeyword (lexeme tk) = false
  | TokenType.Number =>
      numberStart code i = true /\ parseNumber code i = (lexeme tk, i')
  | TokenType.Operator =>
      reachesOperatorRule code i = true
      /\ matchOperator code i 3 = Some (lexeme tk)
  | TokenType.Delimiter =>
      reachesOperatorRule code i = true
      /\ matchOperator code i 3 = None
      /\ lexeme tk = String c EmptyString /\ isDelimiter c = true
  | TokenType.Unknown =>
      reachesOperatorRule code i = true
      /\ matchOperator code i 3 = None
      /\ lexeme tk = String c EmptyString /\ isDelimiter c = false
  end.

(** The first character of [s], if any, is no delimiter. *)
Definition firstIsNoDelimiter (s : string) : bool :=
  match first s with
  | Some c => negb (isDelimiter c)
  | None => true
  end.


(** The number of characters of [s] that satisfy [p]. *)
Fixpoint count_of (p : ascii -> bool) (s : string) : nat :=
  match s with
  | EmptyString => 0
  | String c s' => (if p c then 1 else 0) + count_of p s'
  end.

Definition isDot (c : ascii) : bool := Ascii.eqb c ".".
Definition isMarker (c : ascii) : bool := Ascii.eqb c "e" || Ascii.eqb c "E".
Definition isSign (c : ascii) : bool := Ascii.eqb c "+" || Ascii.eqb c "-".

Definition islower (c : ascii) : bool :=
  let k := nat_of_ascii c in (97 <=? k) && (k <=? 122).

(** * Tactics *)

Ltac bool_prop :=
  repeat match goal with
  | H : (_ && _) = true |- _ => apply andb_true_iff in H; destruct H
  | H : (_ || _) = false |- _ => apply orb_false_iff in H; destruct H
  | H : negb _ = true |- _ => apply negb_true_iff in H
  | H : negb _ = false |- _ => apply negb_false_iff in H
  | H : (_ <? _) = true |- _ => apply Nat.ltb_lt in H
  | H : (_ <? _) = false |- _ => apply Nat.ltb_ge in H
  | H : (_ <=? _) = true |- _ => apply Nat.leb_le in H
  | H : (_ <=? _) = false |- _ => apply Nat.leb_gt in H
  | H : Ascii.eqb _ _ = true |- _ => apply Ascii.eqb_eq in H
  end.

Ltac case_if :=
  match goal with
  | |- context [if ?b then _ else _] => destruct b eqn:?
  | H : context [if ?b then _ else _] |- _ => destruct b eqn:?
  end.

Ltac inv H := inversion H; subst; clear H.

Ltac not_LF :=
  solve [ apply Ascii.eqb_neq; assumption
        | match goal with
          | H : char_at _ ?k = _ |- char_at _ ?k <> LF =>
              rewrite H; discriminate
          end
        | auto ].

Ltac pushed_token :=
  match goal with
  | H : Some _ = Some _ |- _ => inv H
  end;
  cbn [lexeme type line] in *.

Ltac step_goals :=
  repeat split; try lia; try (intros; lia); try discriminate.


(** * Properties *)

(** ** Strings *)

Section Strings.

Lemma append_nil_r (s : string) : (s ++ EmptyString)%string = s.
Proof. induction s; simpl; congruence. Qed.

Lemma append_assoc (a b c : string) :
  ((a ++ b) ++ c)%string = (a ++ (b ++ c))%string.
Proof. induction a; simpl; congruence. Qed.

Lemma length_append (a b : string) :
  String.length (a ++ b) = String.length a + String.length b.
Proof. induction a; simpl; congruence. Qed.

Lemma length_push_back (s : string) (c : ascii) :
  String.length (push_back s c) = S (String.length s).
Proof. unfold push_back. rewrite length_append. simpl. lia. Qed.

Lemma empty_length (s : string) : empty s = true <-> String.length s = 0.
Proof. destruct s; simpl; split; congruence. Qed.

Lemma empty_false_length (s : string) :
  empty s = false <-> 0 < String.length s.
Proof. destruct s; simpl; split; intros; try congruence; lia. Qed.

Lemma push_back_append (a b : string) (c : ascii) :
  (push_back a c ++ b)%string = (a ++ String c b)%string.
Proof. unfold push_back. rewrite append_assoc. reflexivity. Qed.

Lemma any_of_append (p : ascii -> bool) (a b : string) :
  any_of p (a ++ b) = any_of p a || any_of p b.
Proof.
  induction a as [|c a IH]; simpl; [reflexivity|].
  rewrite IH. apply orb_assoc.
Qed.

Lemma any_of_push_back (p : ascii -> bool) (s : string) (c : ascii) :
  any_of p (push_back s c) = any_of p s || p c.
Proof.
  unfold push_back. rewrite any_of_append. simpl.
  rewrite orb_false_r. reflexivity.
Qed.

Lemma substring_0_append (a b : string) :
  String.substring 0 (String.length a) (a ++ b) = a.
Proof. induction a; simpl; [destruct b; reflexivity | congruence]. Qed.

Lemma erase_push_back (s : string) (c : ascii) :
  erase (push_back s c) (String.length (push_back s c) - 1) = s.
Proof.
  rewrite length_push_back. unfold erase, push_back.
  replace (S (String.length s) - 1) with (String.length s) by lia.
  apply substring_0_append.
Qed.

Lemma substring_0 (s : string) (i : nat) :
  String.substring i 0 s = EmptyString.
Proof.
  revert i. induction s as [|c s IH]; intros [|i]; simpl; auto.
Qed.

(** A window of [S m] characters is its first character and the window of
    [m] characters after it. *)
Lemma substring_S (s : string) : forall i m,
  i < String.length s ->
  String.substring i (S m) s
  = String (char_at s i) (String.substring (S i) m s).
Proof.
  induction s as [|c s IH]; intros i m H; simpl in H.
  - lia.
  - destruct i as [|i].
    + reflexivity.
    + change (String.substring (S i) (S m) (String c s))
        with (String.substring i (S m) s).
      rewrite IH by lia. reflexivity.
Qed.

Lemma length_substring (s : string) : forall i m,
  i + m <= String.length s -> String.length (String.substring i m s) = m.
Proof.
  induction s as [|c s IH]; intros i m H; simpl in H.
  - assert (m = 0) by lia. subst. destruct i; reflexivity.
  - destruct i as [|i]; simpl.
    + destruct m; simpl; [reflexivity|]. f_equal. apply IH. simpl. lia.
    + apply IH. lia.
Qed.

Lemma substring_all (s : string) :
  String.substring 0 (String.length s) s = s.
Proof. induction s; simpl; congruence. Qed.

(** Two adjacent windows make one. *)
Lemma substring_split (s : string) (i a b : nat) :
  i + a + b <= String.length s ->
  String.substring i (a + b) s
  = (String.substring i a s ++ String.substring (i + a) b s)%string.
Proof.
  revert i. induction a as [|a IH]; intros i H.
  - rewrite substring_0, Nat.add_0_r. reflexivity.
  - change (S a + b) with (S (a + b)).
    rewrite (substring_S s i (a + b)) by lia.
    rewrite (substring_S s i a) by lia.
    rewrite IH by lia.
    replace (S i + a) with (i + S a) by lia. reflexivity.
Qed.

Lemma peekChar_not_NUL (s : string) (i k : nat) :
  peekChar s i k <> NUL -> i + k < String.length s.
Proof.
  unfold peekChar. destruct (i + k <? String.length s) eqn:E.
  - intros _. apply Nat.ltb_lt. exact E.
  - congruence.
Qed.

Lemma peekChar_in (s : string) (i k : nat) :
  i + k < String.length s -> peekChar s i k = char_at s (i + k).
Proof.
  intros H. unfold peekChar. apply Nat.ltb_lt in H. rewrite H. reflexivity.
Qed.

End Strings.

Section Spans.

Variable code : string.

Lemma span_refl (i : nat) : span code i i = EmptyString.
Proof. unfold span. rewrite Nat.sub_diag. apply substring_0. Qed.

Lemma span_cons (i j : nat) :
  i < String.length code -> i < j ->
  span code i j = String (char_at code i) (span code (S i) j).
Proof.
  intros H L. unfold span.
  replace (j - i) with (S (j - S i)) by lia.
  apply substring_S. assumption.
Qed.

Lemma span_one (i : nat) :
  i < String.length code ->
  span code i (S i) = String (char_at code i) EmptyString.
Proof. intros H. rewrite span_cons, span_refl by lia. reflexivity. Qed.

Lemma span_app (i j k : nat) :
  i <= j -> j <= k -> k <= String.length code ->
  (span code i j ++ span code j k)%string = span code i k.
Proof.
  intros A B C. unfold span.
  replace (k - i) with ((j - i) + (k - j)) by lia.
  rewrite substring_split by lia.
  replace (i + (j - i)) with j by lia. reflexivity.
Qed.

Lemma span_snoc (i j : nat) :
  i <= j -> j < String.length code ->
  push_back (span code i j) (char_at code j) = span code i (S j).
Proof.
  intros A B. unfold push_back. rewrite <- span_one by assumption.
  apply span_app; lia.
Qed.

Lemma length_span (i j : nat) :
  i <= j -> j <= String.length code -> String.length (span code i j) = j - i.
Proof. intros A B. unfold span. apply length_substring. lia. Qed.

Lemma span_all : span code 0 (String.length code) = code.
Proof. unfold span. rewrite Nat.sub_0_r. apply substring_all. Qed.

(** Appending the character under the cursor, then the span after it. *)
Lemma push_back_span (lex : string) (i j : nat) :
  i < String.length code -> i < j ->
  (push_back lex (char_at code i) ++ span code (S i) j)%string
  = (lex ++ span code i j)%string.
Proof.
  intros A B. rewrite push_back_append, <- span_cons by assumption.
  reflexivity.
Qed.

Lemma push_back_span1 (lex : string) (i : nat) :
  i < String.length code ->
  push_back lex (char_at code i) = (lex ++ span code i (S i))%string.
Proof. intros A. rewrite span_one by assumption. reflexivity. Qed.

End Spans.

Section Lines.

Variable code : string.

Lemma lfb_S_LF (k : nat) :
  k < String.length code -> char_at code k = LF ->
  lineFeedsBefore code (S k) = (lineFeedsBefore code k + 1)%Z.
Proof.
  intros H E. simpl. apply Nat.ltb_lt in H. rewrite H, E. reflexivity.
Qed.

Lemma lfb_S_other (k : nat) :
  char_at code k <> LF ->
  lineFeedsBefore code (S k) = lineFeedsBefore code k.
Proof.
  intros E. simpl. apply Ascii.eqb_neq in E. rewrite E, andb_false_r.
  reflexivity.
Qed.

Lemma lfb_S_bounds (k : nat) :
  (lineFeedsBefore code k <= lineFeedsBefore code (S k)
   <= lineFeedsBefore code k + 1)%Z.
Proof. simpl. case_if; lia. Qed.

Lemma lfb_mono (i j : nat) :
  i <= j ->
  (0 <= lineFeedsBefore code j - lineFeedsBefore code i
   <= Z.of_nat (j - i))%Z.
Proof.
  induction 1 as [|j H IH].
  - rewrite Nat.sub_diag. lia.
  - pose proof (lfb_S_bounds j). lia.
Qed.

(** A line feed between [i] and [j] separates their line numbers. *)
Lemma lfb_LF_between (i k j : nat) :
  i <= k -> k < j -> k < String.length code -> char_at code k = LF ->
  (lineFeedsBefore code i + 1 <= lineFeedsBefore code j)%Z.
Proof.
  intros A B C E. pose proof (lfb_mono i k A). pose proof (lfb_mono (S k) j B).
  rewrite (lfb_S_LF k C E) in *. lia.
Qed.

End Lines.

(** ** The line counter *)

Lemma wrap_int_id (z : Z) :
  (INT_MIN <= z <= INT_MAX)%Z -> wrap_int z = z.
Proof.
  unfold wrap_int, INT_MIN, INT_MAX. intros H.
  rewrite Z.mod_small by lia. lia.
Qed.

Lemma wrap_int_range (z : Z) : (INT_MIN <= wrap_int z <= INT_MAX)%Z.
Proof.
  unfold wrap_int, INT_MIN, INT_MAX.
  pose proof (Z.mod_pos_bound (z - -2147483648) 4294967296 ltac:(lia)). lia.
Qed.

(** Below [INT_MAX], [++line] adds one. *)
Lemma incr_small (ln : Z) :
  (INT_MIN <= ln < INT_MAX)%Z -> incr ln = (ln + 1)%Z.
Proof.
  intros H. unfold incr. apply wrap_int_id. unfold INT_MIN, INT_MAX in *. lia.
Qed.

(** At [INT_MAX], [++line] wraps. *)
Lemma incr_INT_MAX : incr INT_MAX = INT_MIN.
Proof. reflexivity. Qed.

(** Wrapping once is wrapping at every step. *)
Lemma wrap_int_succ (z : Z) : wrap_int (wrap_int z + 1) = wrap_int (z + 1).
Proof.
  unfold wrap_int, INT_MIN.
  replace ((z - -2147483648) mod 4294967296 + -2147483648 + 1 - -2147483648)%Z
    with ((z - -2147483648) mod 4294967296 + 1)%Z by lia.
  rewrite Z.add_mod_idemp_l by lia.
  replace (z + 1 - -2147483648)%Z with (z - -2147483648 + 1)%Z by lia.
  reflexivity.
Qed.

(** [k] times [++line], from a counter in the range of [int]. *)
Lemma iter_incr (k : nat) (ln : Z) :
  (INT_MIN <= ln <= INT_MAX)%Z ->
  Nat.iter k incr ln = wrap_int (ln + Z.of_nat k).
Proof.
  intros H. induction k as [|k IH].
  - simpl. rewrite Z.add_0_r, wrap_int_id by assumption. reflexivity.
  - rewrite Nat2Z.inj_succ, Nat.iter_succ, IH. unfold incr.
    rewrite wrap_int_succ. f_equal. lia.
Qed.

(** [INT_MAX] as a number of line feeds. *)
Lemma INT_MAX_nat : Z.of_nat (Z.to_nat INT_MAX) = INT_MAX.
Proof. apply Z2Nat.id. discriminate. Qed.

(** A counter that can take the line feeds up to [j] can take the one at
    [k]. *)
Lemma incr_at_LF (code : string) (i k j : nat) (ln : Z) :
  noWrap code i ln j ->
  i <= k -> k < j -> k < String.length code -> char_at code k = LF ->
  incr ln = (ln + 1)%Z.
Proof.
  intros [A B] C D E F. pose proof (lfb_LF_between code i k j C D E F).
  apply incr_small. lia.
Qed.



(** A character that is not white space is not a line feed. *)
Lemma not_space_not_LF (c : ascii) : isspace c = false -> c <> LF.
Proof. intros H E. subst. discriminate. Qed.

(** ** The inner loops *)

Section Loops.

Variable code : string.
Let n := String.length code.

(** *** Line comments *)

Lemma skipLine_spec (fuel : nat) : forall i,
  i <= skipLine fuel code i
  /\ (i <= n -> skipLine fuel code i <= n)
  /\ lineFeedsBefore code (skipLine fuel code i) = lineFeedsBefore code i.
Proof.
  induction fuel as [|fuel IH]; intros i; simpl.
  - repeat split; auto.
  - case_if; [|repeat split; auto].
    bool_prop. destruct (IH (S i)) as (A & B & C).
    repeat split; [lia | intros; apply B; lia |].
    rewrite C. apply lfb_S_other. apply Ascii.eqb_neq. assumption.
Qed.

(** The loop stops because its condition fails, not for lack of fuel. *)
Lemma skipLine_exit (fuel : nat) : forall i,
  n <= fuel + i ->
  let i' := skipLine fuel code i in
  (i' <? n) && negb (Ascii.eqb (char_at code i') LF) = false.
Proof.
  induction fuel as [|fuel IH]; intros i H; simpl.
  - apply andb_false_iff. left. apply Nat.ltb_ge. lia.
  - case_if; [apply IH; lia | assumption].
Qed.

(** *** Block comments *)

Lemma skipBlock_spec (fuel : nat) : forall i ln i' ln',
  skipBlock fuel code i ln = (i', ln') ->
  i <= i'
  /\ (i <= n -> i' <= n)
  /\ (noWrap code i ln i' ->
      (ln' - ln = lineFeedsBefore code i' - lineFeedsBefore code i)%Z).
Proof.
  induction fuel as [|fuel IH]; intros i ln i' ln' H; simpl in H.
  - inv H. repeat split; auto; lia.
  - case_if; [|inv H; repeat split; auto; lia].
    bool_prop. apply IH in H. destruct H as (A & B & C).
    repeat split; [lia | intros; apply B; lia |].
    intros NW.
    destruct (Ascii.eqb (char_at code i) LF) eqn:E.
    + bool_prop.
      rewrite (incr_at_LF code i i i' ln NW) in C
        by (fold n; lia || assumption).
      destruct NW as [N1 N2].
      rewrite (lfb_S_LF code i) in C by (fold n; lia || assumption).
      unfold noWrap in C.
      rewrite (lfb_S_LF code i) in C by (fold n; lia || assumption).
      lia.
    + apply Ascii.eqb_neq in E. destruct NW as [N1 N2]. unfold noWrap in C.
      rewrite (lfb_S_other code i) in C by assumption.
      lia.
Qed.

Lemma skipBlock_exit (fuel : nat) : forall i ln i' ln',
  n <= fuel + i ->
  skipBlock fuel code i ln = (i', ln') ->
  (i' + 1 <? n)
  && negb (Ascii.eqb (char_at code i') "*"
           && Ascii.eqb (char_at code (i' + 1)) "/") = false.
Proof.
  induction fuel as [|fuel IH]; intros i ln i' ln' F H; simpl in H.
  - inv H. apply andb_false_iff. left. apply Nat.ltb_ge. lia.
  - case_if; [eapply IH; [|eassumption]; lia | inv H; assumption].
Qed.

(** *** Identifiers *)

Lemma identRun_spec (fuel : nat) : forall i id id' i',
  identRun fuel code i id = (id', i') ->
  i <= i'
  /\ (i <= n -> i' <= n)
  /\ id' = (id ++ span code i i')%string
  /\ (forall k, i <= k < i' ->
        isalnum (char_at code k) || Ascii.eqb (char_at code k) "_" = true)
  /\ lineFeedsBefore code i' = lineFeedsBefore code i.
Proof.
  induction fuel as [|fuel IH]; intros i id id' i' H; simpl in H.
  - inv H. rewrite span_refl, append_nil_r.
    repeat split; auto; intros; lia.
  - case_if.
    + bool_prop. apply IH in H. destruct H as (A & B & C & D & E).
      repeat split; [lia | intros; apply B; lia | | |].
      * rewrite C, push_back_span by (assumption || lia). reflexivity.
      * intros k Hk. destruct (Nat.eq_dec k i) as [->|]; [assumption|].
        apply D. lia.
      * rewrite E. apply lfb_S_other. intros F. rewrite F in *. discriminate.
    + inv H. rewrite span_refl, append_nil_r.
      repeat split; auto; intros; lia.
Qed.

Lemma identRun_exit (fuel : nat) : forall i id id' i',
  n <= fuel + i ->
  identRun fuel code i id = (id', i') ->
  (i' <? n)
  && (isalnum (char_at code i') || Ascii.eqb (char_at code i') "_") = false.
Proof.
  induction fuel as [|fuel IH]; intros i id id' i' F H; simpl in H.
  - inv H. apply andb_false_iff. left. apply Nat.ltb_ge. fold n. lia.
  - case_if; [eapply IH; [|eassumption]; lia | inv H; assumption].
Qed.

(** *** Digit runs *)

Lemma digitRun_spec (fuel : nat) : forall i lex seen lex' i' seen',
  digitRun fuel code i lex seen = (lex', i', seen') ->
  i <= i'
  /\ (i <= n -> i' <= n)
  /\ lex' = (lex ++ span code i i')%string
  /\ (forall k, i <= k < i' -> isdigit (char_at code k) = true)
  /\ seen' = seen || (i <? i')
  /\ any_of isdigit lex' = any_of isdigit lex || (i <? i')
  /\ lineFeedsBefore code i' = lineFeedsBefore code i.
Proof.
  induction fuel as [|fuel IH]; intros i lex seen lex' i' seen' H;
    simpl in H.
  - inv H. rewrite span_refl, append_nil_r, Nat.ltb_irrefl.
    rewrite !orb_false_r. repeat split; auto; intros; lia.
  - case_if.
    + bool_prop. apply IH in H. destruct H as (A & B & C & K & D & E & F).
      assert (G : (i <? i') = true) by (apply Nat.ltb_lt; lia).
      repeat split; [lia | intros; apply B; lia | | | | |].
      * rewrite C, push_back_span by (assumption || lia). reflexivity.
      * intros k Hk. destruct (Nat.eq_dec k i) as [->|]; [assumption|].
        apply K. lia.
      * rewrite D, G. destruct seen; reflexivity.
      * rewrite E, G, any_of_push_back, H1.
        destruct (any_of isdigit lex); reflexivity.
      * rewrite F. apply lfb_S_other. intros L. rewrite L in *. discriminate.
    + inv H. rewrite span_refl, append_nil_r, Nat.ltb_irrefl.
      rewrite !orb_false_r. repeat split; auto; intros; lia.
Qed.

Lemma digitRun_exit (fuel : nat) : forall i lex seen lex' i' seen',
  n <= fuel + i ->
  digitRun fuel code i lex seen = (lex', i', seen') ->
  (i' <? n) && isdigit (char_at code i') = false.
Proof.
  induction fuel as [|fuel IH]; intros i lex seen lex' i' seen' F H;
    simpl in H.
  - inv H. apply andb_false_iff. left. apply Nat.ltb_ge. fold n. lia.
  - case_if; [eapply IH; [|eassumption]; lia | inv H; assumption].
Qed.

(** An identifier run stops at the first character that does not belong to
    it. *)
Lemma identRun_run (fuel : nat) : forall i j id,
  i <= j -> j <= n ->
  (forall k, i <= k < j -> identChar (char_at code k) = true) ->
  (j <? n) && identChar (char_at code j) = false ->
  j - i <= fuel ->
  identRun fuel code i id = ((id ++ span code i j)%string, j).
Proof.
  unfold identChar.
  induction fuel as [|fuel IH]; intros i j id Hij Hj D X F.
  - assert (i = j) as -> by lia. simpl.
    rewrite span_refl, append_nil_r. reflexivity.
  - simpl. fold n. destruct (Nat.eq_dec i j) as [->|N].
    + rewrite X, span_refl, append_nil_r. reflexivity.
    + replace (i <? n) with true by (symmetry; apply Nat.ltb_lt; lia).
      rewrite (D i) by lia. simpl.
      rewrite (IH (S i) j) by (try assumption; try lia; intros; apply D; lia).
      rewrite push_back_span by (fold n; lia). reflexivity.
Qed.

End Loops.

(** ** The literal parsers *)

(** Rewrites the line feeds before a successor position, as far as the
    context says whether the character passed is a line feed. *)
Ltac lfb_steps code :=
  repeat match goal with
  | |- context [lineFeedsBefore code (S ?k)] =>
      first [ rewrite (lfb_S_LF code k) by (assumption || lia)
            | rewrite (lfb_S_other code k) by not_LF
            | generalize (lfb_S_bounds code k);
              generalize (lineFeedsBefore code (S k)); intro ]
  end.

(** A lexeme built by [push_back] from the characters under the cursor. *)
Ltac span_eq code :=
  repeat (rewrite (span_snoc code) by lia);
  repeat (rewrite (push_back_span code) by lia);
  try (rewrite (push_back_span1 code) by lia;
       repeat (rewrite (push_back_span code) by lia));
  try rewrite span_refl, append_nil_r;
  reflexivity.

Section Literals.
Variable code : string.
Let n := String.length code.

Lemma parseCharLiteral_spec (i : nat) (ln : Z) lex i' ln' :
  i < n -> char_at code i = SQUOTE ->
  parseCharLiteral code i ln = (lex, i', ln') ->
  i < i' <= n
  /\ lex = span code i i'
  /\ (noWrap code i ln i' ->
      (ln <= ln')%Z
      /\ (ln' - ln <= lineFeedsBefore code i' - lineFeedsBefore code i)%Z
      /\ (escapedLF lex = false ->
          (ln' - ln = lineFeedsBefore code i' - lineFeedsBefore code i)%Z)).
Proof.
  intros Hi Hq H. unfold parseCharLiteral in H. fold n in H.
  change (push_back EmptyString (char_at code i))
    with (String (char_at code i) EmptyString) in H.
  repeat case_if; bool_prop; inv H.
  all: try match goal with H : (_, _, _) = (_, _, _) |- _ => inv H end.
  all: unfold n in *.
  all: split; [lia|split]; [rewrite <- (span_one code i) by assumption; span_eq code|].
  all: intros NW.
  all: try rewrite (incr_at_LF code i (S i) _ ln NW) by (lia || assumption).
  all: split; [|split]; [| |intros EL; cbn [push_back append escapedLF] in EL;
                           rewrite Hq in EL; cbn in EL;
                           repeat match goal with
                           | H : char_at code _ = BACKSLASH |- _ =>
                               rewrite H in EL; cbn in EL
                           | H : Ascii.eqb (char_at code _) BACKSLASH = false |- _ =>
                               rewrite H in EL
                           end; bool_prop].
  all: lfb_steps code; intros; lia.
Qed.

Lemma stringBody_spec (fuel : nat) : forall i ln lex lex' i' ln',
  stringBody fuel code i ln lex = (lex', i', ln') ->
  i <= i'
  /\ (i <= n -> i' <= n)
  /\ lex' = (lex ++ span code i i')%string
  /\ (noWrap code i ln i' ->
      (ln <= ln')%Z
      /\ (ln' - ln <= lineFeedsBefore code i' - lineFeedsBefore code i)%Z
      /\ (escapedLF (span code i i') = false ->
          (ln' - ln = lineFeedsBefore code i' - lineFeedsBefore code i)%Z)).
Proof.
  induction fuel as [|fuel IH]; intros i ln lex lex' i' ln' H; simpl in H.
  - inv H. rewrite span_refl, append_nil_r.
    repeat split; auto; intros; lia.
  - fold n in H. repeat case_if; bool_prop;
      try (apply IH in H; destruct H as (A & B & C & L));
      try (inv H).
    all: unfold n in *.
    all: split; [lia|split]; [intros; lia|split];
      [try (rewrite C); span_eq code|].
    all: intros NW.
    + (* an escape pair *)
      assert (NW' : noWrap code (S (S i)) ln i').
      { destruct NW as [N1 N2]. split; [assumption|].
        pose proof (lfb_S_bounds code i). pose proof (lfb_S_bounds code (S i)).
        lia. }
      destruct (L NW') as (D & E & F). split; [|split].
      * assumption.
      * revert E. lfb_steps code. intros; lia.
      * intros EL. rewrite (span_cons code i), (span_cons code (S i)) in EL
          by lia.
        cbn [escapedLF] in EL.
        match goal with
        | H : char_at code i = BACKSLASH |- _ => rewrite H in EL
        end.
        cbn in EL. bool_prop.
        match goal with
        | H : escapedLF _ = false |- _ => specialize (F H)
        end.
        revert F. lfb_steps code. intros; lia.
    + (* a backslash that ends the buffer *)
      assert (NW' : noWrap code (S i) ln i').
      { destruct NW as [N1 N2]. split; [assumption|].
        pose proof (lfb_S_bounds code i). lia. }
      destruct (L NW') as (D & E & F). split; [|split].
      * assumption.
      * revert E. lfb_steps code. intros; lia.
      * intros _. assert (i' = S i) by lia. subst i'.
        lfb_steps code. revert E D. lfb_steps code. intros; lia.
    + (* the closing quote *)
      lfb_steps code. repeat split; intros; lia.
    + (* a line feed *)
      rewrite (incr_at_LF code i i i' ln NW) in L by (lia || assumption).
      assert (NW' : noWrap code (S i) (ln + 1) i').
      { destruct NW as [N1 N2]. split; [lia|].
        rewrite (lfb_S_LF code i) by assumption. lia. }
      destruct (L NW') as (D & E & F). split; [|split].
      * lia.
      * revert E. lfb_steps code. intros; lia.
      * intros EL. rewrite (span_cons code i) in EL by lia.
        cbn [escapedLF] in EL.
        match goal with
        | H : Ascii.eqb (char_at code i) BACKSLASH = false |- _ =>
            rewrite H in EL
        end.
        specialize (F EL). revert F. lfb_steps code. intros; lia.
    + (* any other character *)
      assert (NW' : noWrap code (S i) ln i').
      { destruct NW as [N1 N2]. split; [assumption|].
        pose proof (lfb_S_bounds code i). lia. }
      destruct (L NW') as (D & E & F). split; [|split].
      * assumption.
      * revert E. lfb_steps code. intros; lia.
      * intros EL. rewrite (span_cons code i) in EL by lia.
        cbn [escapedLF] in EL.
        match goal with
        | H : Ascii.eqb (char_at code i) BACKSLASH = false |- _ =>
            rewrite H in EL
        end.
        specialize (F EL). revert F. lfb_steps code. intros; lia.
    + repeat split; intros; lia.
Qed.


(** The loop ends at the end of the buffer or just after a closing quote. *)
Lemma stringBody_exit (fuel : nat) : forall i ln lex lex' i' ln',
  n <= fuel + i ->
  stringBody fuel code i ln lex = (lex', i', ln') ->
  n <= i' \/ (0 < i' /\ char_at code (i' - 1) = DQUOTE).
Proof.
  induction fuel as [|fuel IH]; intros i ln lex lex' i' ln' F H; simpl in H.
  - inv H. left. lia.
  - fold n in H. repeat case_if; bool_prop;
      try (apply IH in H; [assumption | lia]); inv H.
    + right. simpl. rewrite Nat.sub_0_r. split; [lia | assumption].
    + left. lia.
Qed.

Lemma parseStringLiteral_spec (i : nat) (ln : Z) lex i' ln' :
  i < n -> char_at code i = DQUOTE ->
  parseStringLiteral code i ln = (lex, i', ln') ->
  i < i' <= n
  /\ lex = span code i i'
  /\ (noWrap code i ln i' ->
      (ln <= ln')%Z
      /\ (ln' - ln <= lineFeedsBefore code i' - lineFeedsBefore code i)%Z
      /\ (escapedLF lex = false ->
          (ln' - ln = lineFeedsBefore code i' - lineFeedsBefore code i)%Z)).
Proof.
  intros Hi Hq H. unfold parseStringLiteral in H.
  apply stringBody_spec in H. destruct H as (A & B & C & L).
  unfold n in *.
  assert (SP : lex = span code i i').
  { rewrite C. change (push_back EmptyString (char_at code i))
      with (String (char_at code i) EmptyString).
    rewrite <- (span_one code i) by assumption. apply span_app; lia. }
  split; [lia|split]; [assumption|].
  intros NW.
  assert (NW' : noWrap code (S i) ln i').
  { destruct NW as [N1 N2]. split; [assumption|].
    rewrite (lfb_S_other code i) by not_LF. assumption. }
  destruct (L NW') as (D & E & F). split; [|split].
  - assumption.
  - revert E. lfb_steps code. intros; lia.
  - intros EL. rewrite SP, (span_cons code i) in EL by lia.
    cbn [escapedLF] in EL. rewrite Hq in EL. cbn in EL.
    specialize (F EL). revert F. lfb_steps code. intros; lia.
Qed.

End Literals.

(** ** Numbers *)

Section Numbers.
Variable code : string.
Let n := String.length code.

Lemma peekChar_digit (i : nat) :
  isdigit (peekChar code i 1) = true ->
  S i < n /\ isdigit (char_at code (S i)) = true.
Proof.
  unfold peekChar. replace (i + 1) with (S i) by lia. fold n.
  destruct (S i <? n) eqn:E; [|discriminate].
  bool_prop. auto.
Qed.

(** The integer and fractional parts. *)
Lemma parseNumber_mantissa (i : nat) l1 i1 h1 l2 i2 h2 :
  digitRun n code i EmptyString false = (l1, i1, h1) ->
  (if (i1 <? n) && Ascii.eqb (char_at code i1) "."
   then digitRun n code (S i1) (push_back l1 ".") h1
   else (l1, i1, h1)) = (l2, i2, h2) ->
  i <= i2
  /\ (i <= n -> i2 <= n)
  /\ l2 = span code i i2
  /\ lineFeedsBefore code i2 = lineFeedsBefore code i
  /\ (i < n -> numberStart code i = true ->
      any_of isdigit l2 = true /\ i < i2).
Proof.
  intros D1 D2.
  pose proof (digitRun_exit code n _ _ _ _ _ _ ltac:(fold n; lia) D1) as X1.
  apply digitRun_spec in D1. destruct D1 as (A1 & B1 & C1 & K1 & _ & Y1 & F1).
  simpl in C1, Y1. fold n in B1, X1.
  case_if.
  - bool_prop.
    pose proof (digitRun_exit code n _ _ _ _ _ _ ltac:(fold n; lia) D2) as X2.
    apply digitRun_spec in D2.
    destruct D2 as (A2 & B2 & C2 & K2 & _ & Y2 & F2). fold n in B2, X2.
    repeat split; try lia.
    + rewrite C2, C1.
      replace "."%char with (char_at code i1) by assumption.
      rewrite span_snoc by (assumption || lia). apply span_app; lia.
    + rewrite F2, <- F1. apply lfb_S_other. rewrite H0. discriminate.
    + rewrite Y2, any_of_push_back, Y1.
      unfold numberStart in H2. apply orb_true_iff in H2.
      destruct H2 as [G|G].
      * replace (i <? i1) with true; [reflexivity|].
        symmetry. apply Nat.ltb_lt.
        destruct (Nat.eq_dec i1 i) as [->|]; [|lia].
        rewrite G in X1. apply Nat.ltb_lt in H1. rewrite H1 in X1.
        discriminate.
      * bool_prop. apply peekChar_digit in H3. destruct H3 as [G1 G2].
        assert (i1 = i) as ->.
        { destruct (Nat.eq_dec i1 i); [assumption|].
          specialize (K1 i ltac:(lia)). rewrite H2 in K1. discriminate. }
        replace (S i <? i2) with true;
          [destruct (i <? i); reflexivity|].
        symmetry. apply Nat.ltb_lt.
        destruct (Nat.eq_dec i2 (S i)) as [->|]; [|lia].
        rewrite G2 in X2. apply Nat.ltb_lt in G1. rewrite G1 in X2.
        discriminate.
  - inv D2. repeat split; auto.
    + rewrite Y1.
      unfold numberStart in H0. apply orb_true_iff in H0.
      assert (G : i < i2).
      { destruct H0 as [G|G].
        - destruct (Nat.eq_dec i2 i) as [->|]; [|lia].
          rewrite G in X1. apply Nat.ltb_lt in H. rewrite H in X1.
          discriminate.
        - bool_prop. apply peekChar_digit in H1. destruct H1 as [G1 G2].
          destruct (Nat.eq_dec i2 i) as [->|]; [|lia].
          apply Nat.ltb_lt in H. rewrite H in Heqb. rewrite H0 in Heqb.
          discriminate. }
      apply Nat.ltb_lt in G. rewrite G. reflexivity.
    + unfold numberStart in H0. apply orb_true_iff in H0.
      destruct H0 as [G|G].
      * destruct (Nat.eq_dec i2 i) as [->|]; [|lia].
        rewrite G in X1. apply Nat.ltb_lt in H. rewrite H in X1.
        discriminate.
      * bool_prop. destruct (Nat.eq_dec i2 i) as [->|]; [|lia].
        apply Nat.ltb_lt in H. rewrite H in Heqb. rewrite H0 in Heqb.
        discriminate.
Qed.

Lemma parseNumber_spec (i : nat) num i' :
  parseNumber code i = (num, i') ->
  i <= i'
  /\ (i <= n -> i' <= n)
  /\ lineFeedsBefore code i' = lineFeedsBefore code i
  /\ (num = span code i i'
      \/ (num = span code i (S i') /\ signedRollback code i'))
  /\ (i < n -> numberStart code i = true ->
      any_of isdigit num = true /\ i < i').
Proof.
  unfold parseNumber. fold n.
  destruct (digitRun n code i EmptyString false) as [[l1 i1] h1] eqn:D1.
  destruct (if (i1 <? n) && Ascii.eqb (char_at code i1) "."
            then digitRun n code (S i1) (push_back l1 ".") h1
            else (l1, i1, h1)) as [[l2 i2] h2] eqn:D2.
  destruct (parseNumber_mantissa _ _ _ _ _ _ _ D1 D2)
    as (A2 & B2 & C2 & F2 & G2).
  clear D1 D2.
  destruct ((i2 <? n)
            && (Ascii.eqb (char_at code i2) "e"
                || Ascii.eqb (char_at code i2) "E")) eqn:E3.
  2:{ intros H. inv H. repeat split; auto;
      destruct G2; assumption. }
  bool_prop.
  assert (M : char_at code i2 = "e"%char \/ char_at code i2 = "E"%char).
  { apply orb_true_iff in H0. destruct H0; bool_prop; auto. }
  assert (L3 : lineFeedsBefore code (S i2) = lineFeedsBefore code i2).
  { apply lfb_S_other. destruct M as [M|M]; rewrite M; discriminate. }
  destruct ((S i2 <? n)
            && (Ascii.eqb (char_at code (S i2)) "+"
                || Ascii.eqb (char_at code (S i2)) "-")) eqn:E4.
  - bool_prop.
    assert (Sg : char_at code (S i2) = "+"%char
                 \/ char_at code (S i2) = "-"%char).
    { apply orb_true_iff in H2. destruct H2; bool_prop; auto. }
    assert (L4 : lineFeedsBefore code (S (S i2)) = lineFeedsBefore code i2).
    { rewrite <- L3. apply lfb_S_other.
      destruct Sg as [Sg|Sg]; rewrite Sg; discriminate. }
    destruct (digitRun n code (S (S i2)) _ false) as [[l5 i5] e5] eqn:D5.
    pose proof (digitRun_exit code n _ _ _ _ _ _ ltac:(fold n; lia) D5) as X5.
    apply digitRun_spec in D5.
    destruct D5 as (A5 & B5 & C5 & K5 & S5 & Y5 & F5). fold n in B5, X5.
    destruct e5; simpl; intros R; inv R.
    + (* digits follow the sign *)
      repeat split; try lia.
      * left. rewrite !span_snoc by lia. apply span_app; lia.
      * rewrite !any_of_append, !any_of_push_back.
        destruct (G2 H3 H4) as [-> _]. reflexivity.
    + (* no digit: rollback, after two characters were pushed *)
      symmetry in S5. simpl in S5. bool_prop.
      assert (i5 = S (S i')) as -> by lia.
      rewrite span_refl, append_nil_r, erase_push_back.
      repeat split; try lia.
      * right. split; [apply span_snoc; lia|].
        repeat split; assumption.
      * rewrite any_of_push_back. destruct (G2 H3 H4) as [-> _].
        reflexivity.
      * destruct (G2 H3 H4). lia.
  - destruct (digitRun n code (S i2) _ false) as [[l5 i5] e5] eqn:D5.
    apply digitRun_spec in D5.
    destruct D5 as (A5 & B5 & C5 & K5 & S5 & Y5 & F5). fold n in B5.
    destruct e5; simpl; intros R; inv R.
    + repeat split; try lia.
      * left. rewrite span_snoc by lia. apply span_app; lia.
      * rewrite !any_of_append, !any_of_push_back.
        destruct (G2 H1 H2) as [-> _]. reflexivity.
    + symmetry in S5. simpl in S5. bool_prop.
      assert (i5 = S i') as -> by lia.
      rewrite span_refl, append_nil_r, erase_push_back.
      repeat split; auto; destruct G2; assumption.
Qed.

End Numbers.

(** ** Operators *)

Section Operators.
Variable code : string.
Let n := String.length code.

Lemma ops_wellFormed : forallb wellFormedOp ops = true.
Proof. reflexivity. Qed.

Lemma isOperatorString_In (s : string) :
  isOperatorString s = true <-> In s ops.
Proof.
  unfold isOperatorString. rewrite existsb_exists. split.
  - intros (x & Hx & E). apply String.eqb_eq in E. subst. assumption.
  - intros H. exists s. split; [assumption | apply String.eqb_refl].
Qed.

Lemma isOperatorString_wellFormed (s : string) :
  isOperatorString s = true -> wellFormedOp s = true.
Proof.
  intros H. apply isOperatorString_In in H.
  pose proof ops_wellFormed as W. rewrite forallb_forall in W. auto.
Qed.

Lemma windowOk_S (i len : nat) :
  windowOk code i (S len)
  = negb (Ascii.eqb (peekChar code i 0) NUL)
    && ((len =? 0) || windowOk code (S i) len).
Proof.
  unfold windowOk, peekChar. rewrite Nat.add_0_r. fold n.
  destruct (i <? n) eqn:E.
  - bool_prop. rewrite substring_S by assumption. cbn [any_of].
    unfold isNUL at 1.
    destruct (Ascii.eqb (char_at code i) NUL) eqn:Z; cbn [negb orb andb].
    + apply andb_false_r.
    + destruct len as [|len].
      * rewrite substring_0. cbn [any_of negb Nat.eqb orb].
        rewrite andb_true_r. apply Nat.leb_le. lia.
      * cbn [Nat.eqb orb].
        replace (i + S (S len)) with (S i + S len) by lia. reflexivity.
  - bool_prop. change (Ascii.eqb NUL NUL) with true. cbn [negb andb].
    apply andb_false_iff. left. apply Nat.leb_gt. lia.
Qed.

Lemma opWindowFrom_spec (i : nat) : forall cnt k s0,
  opWindowFrom code i k (S cnt) s0
  = if windowOk code (i + k) (S cnt)
    then (s0 ++ String.substring (i + k) (S cnt) code)%string
    else EmptyString.
Proof.
  induction cnt as [|cnt IH]; intros k s0.
  - rewrite windowOk_S. simpl.
    replace (peekChar code (i + k) 0) with (peekChar code i k)
      by (unfold peekChar; rewrite Nat.add_0_r; reflexivity).
    destruct (Ascii.eqb (peekChar code i k) NUL) eqn:E; [reflexivity|].
    simpl. apply Ascii.eqb_neq in E.
    pose proof (peekChar_not_NUL _ _ _ E) as L.
    rewrite substring_S, substring_0 by assumption.
    rewrite (peekChar_in _ _ _ L). reflexivity.
  - rewrite windowOk_S.
    change (opWindowFrom code i k (S (S cnt)) s0)
      with (if Ascii.eqb (peekChar code i k) NUL then EmptyString
            else opWindowFrom code i (S k) (S cnt)
                   (push_back s0 (peekChar code i k))).
    replace (peekChar code (i + k) 0) with (peekChar code i k)
      by (unfold peekChar; rewrite Nat.add_0_r; reflexivity).
    destruct (Ascii.eqb (peekChar code i k) NUL) eqn:E; [reflexivity|].
    rewrite IH. simpl negb. simpl andb.
    replace (i + S k) with (S (i + k)) by lia.
    destruct (windowOk code (S (i + k)) (S cnt)); [|reflexivity].
    apply Ascii.eqb_neq in E.
    pose proof (peekChar_not_NUL _ _ _ E) as L.
    rewrite (substring_S code (i + k)) by assumption.
    rewrite (peekChar_in _ _ _ L). apply push_back_append.
Qed.

Lemma opWindow_spec (i len : nat) :
  opWindow code i (S len)
  = if windowOk code i (S len) then String.substring i (S len) code
    else EmptyString.
Proof.
  unfold opWindow. rewrite opWindowFrom_spec, Nat.add_0_r. reflexivity.
Qed.

(** A window that is not [windowOk] but fits the buffer is no operator. *)
Lemma not_windowOk_not_operator (i len : nat) :
  i + len <= n -> windowOk code i len = false ->
  isOperatorString (String.substring i len code) = false.
Proof.
  intros F W. unfold windowOk in W. fold n in W.
  apply Nat.leb_le in F. rewrite F in W.
  simpl in W. bool_prop.
  destruct (isOperatorString _) eqn:E; [|reflexivity].
  apply isOperatorString_wellFormed in E. unfold wellFormedOp in E.
  bool_prop. congruence.
Qed.

(** The longest-match loop: what it returns is the longest window of at
    most [len] characters at [i] that is an operator. *)
Lemma matchOperator_Some (i : nat) : forall len s,
  matchOperator code i len = Some s ->
  1 <= String.length s <= len
  /\ i + String.length s <= n
  /\ s = String.substring i (String.length s) code
  /\ isOperatorString s = true
  /\ (forall m, String.length s < m <= len -> i + m <= n ->
        isOperatorString (String.substring i m code) = false).
Proof.
  induction len as [|len IH]; intros s H; [discriminate|].
  cbn [matchOperator] in H. rewrite opWindow_spec in H.
  destruct (windowOk code i (S len)) eqn:W.
  - pose proof W as W'. unfold windowOk in W'. fold n in W'. bool_prop.
    assert (L : String.length (String.substring i (S len) code) = S len)
      by (apply length_substring; assumption).
    case_if.
    + inv H. bool_prop. rewrite L.
      repeat split; try lia; try assumption.
    + apply IH in H. destruct H as (A & B & C & D & E).
      repeat split; try lia; try assumption.
      intros m Hm Fm. destruct (Nat.eq_dec m (S len)) as [->|].
      * apply andb_false_iff in Heqb. destruct Heqb as [X|X]; [|exact X].
        apply negb_false_iff, empty_length in X. lia.
      * apply E; lia.
  - simpl in H. apply IH in H. destruct H as (A & B & C & D & E).
    repeat split; try lia; try assumption.
    intros m Hm Fm. destruct (Nat.eq_dec m (S len)) as [->|].
    + apply not_windowOk_not_operator; assumption.
    + apply E; lia.
Qed.

Lemma matchOperator_None (i : nat) : forall len,
  matchOperator code i len = None ->
  forall m, 1 <= m <= len -> i + m <= n ->
    isOperatorString (String.substring i m code) = false.
Proof.
  induction len as [|len IH]; intros H m Hm Fm; [lia|].
  cbn [matchOperator] in H. rewrite opWindow_spec in H.
  destruct (Nat.eq_dec m (S len)) as [->|].
  - destruct (windowOk code i (S len)) eqn:W.
    + case_if; [discriminate|].
      apply andb_false_iff in Heqb. destruct Heqb as [X|X]; [|exact X].
      apply negb_false_iff, empty_length in X.
      rewrite length_substring in X by assumption. lia.
    + apply not_windowOk_not_operator; assumption.
  - apply IH; [|lia|assumption].
    destruct (windowOk code i (S len)); [case_if; [discriminate|assumption]|].
    exact H.
Qed.

(** No line feed in a window means no line is passed. *)
Lemma lfb_window (m : nat) : forall i,
  i + m <= n -> any_of isspace (String.substring i m code) = false ->
  lineFeedsBefore code (i + m) = lineFeedsBefore code i.
Proof.
  induction m as [|m IH]; intros i F H.
  - rewrite Nat.add_0_r. reflexivity.
  - rewrite substring_S in H by (fold n; lia). simpl in H. bool_prop.
    replace (i + S m) with (S i + m) by lia.
    rewrite IH by (assumption || lia).
    apply lfb_S_other. apply not_space_not_LF. assumption.
Qed.

End Operators.

Section Step.
Variable code : string.
Let n := String.length code.

Lemma operatorRule_spec (i : nat) (ln : Z) :
  i < n -> isspace (char_at code i) = false ->
  stepOk code i ln (operatorRule code (char_at code i) i ln).
Proof.
  intros Hi Hs. unfold operatorRule.
  destruct (matchOperator code i 3) as [s|] eqn:M.
  - apply matchOperator_Some in M. destruct M as (A & B & C & D & _).
    apply isOperatorString_wellFormed in D. unfold wellFormedOp in D.
    bool_prop. rewrite C in H0.
    pose proof (lfb_window code _ _ B H0) as L.
    unfold stepOk, tokenOk. fold n in B.
    repeat split; try lia; try (intros; lia).
    all: pushed_token.
    + apply empty_false_length. lia.
    + reflexivity.
    + left. unfold span.
      replace (i + String.length s - i) with (String.length s) by lia.
      assumption.
  - assert (L : lineFeedsBefore code (S i) = lineFeedsBefore code i)
      by (apply lfb_S_other, not_space_not_LF; assumption).
    case_if; unfold stepOk, tokenOk.
    all: repeat split; try lia; try (intros; lia).
    all: pushed_token; auto.
    all: left; symmetry; apply span_one; assumption.
Qed.

Theorem scanStep_spec (i : nat) (ln : Z) :
  i < n -> stepOk code i ln (scanStep code i ln).
Proof.
  intros Hi. unfold n in *. unfold scanStep.
  replace (i + 2) with (S (S i)) by lia.
  destruct (isspace (char_at code i)) eqn:Sp.
  { (* white space *)
    unfold stepOk. destruct (Ascii.eqb (char_at code i) LF) eqn:E.
    - bool_prop.
      assert (I : noWrap code i ln (S i) -> incr ln = (ln + 1)%Z)
        by (intros NW; apply (incr_at_LF code i i (S i) ln NW);
            lia || assumption).
      rewrite (lfb_S_LF code i) by assumption.
      repeat split; try lia; try discriminate.
      all: intros NW; rewrite (I NW); intros; lia.
    - apply Ascii.eqb_neq in E. rewrite (lfb_S_other code i) by assumption.
      step_goals. }
  destruct (Ascii.eqb (char_at code i) "/"
            && Ascii.eqb (peekChar code i 1) "/") eqn:LC.
  { (* line comment *)
    bool_prop.
    assert (L : i + 1 < String.length code)
      by (apply peekChar_not_NUL; rewrite H0; discriminate).
    rewrite peekChar_in in H0 by assumption.
    replace (i + 1) with (S i) in H0 by lia.
    destruct (skipLine_spec code (String.length code) (S (S i)))
      as (A & B & C).
    unfold stepOk. rewrite C. lfb_steps code. step_goals. }
  destruct (Ascii.eqb (char_at code i) "/"
            && Ascii.eqb (peekChar code i 1) "*") eqn:BC.
  { (* block comment *)
    bool_prop.
    assert (L : i + 1 < String.length code)
      by (apply peekChar_not_NUL; rewrite H0; discriminate).
    rewrite peekChar_in in H0 by assumption.
    replace (i + 1) with (S i) in H0 by lia.
    destruct (skipBlock (String.length code) code (S (S i)) ln)
      as [i2 ln2] eqn:SB.
    pose proof (skipBlock_exit code (String.length code) (S (S i)) ln i2 ln2
                  ltac:(lia) SB) as X.
    apply skipBlock_spec in SB. destruct SB as (A & B & C).
    pose proof (lfb_mono code i i2 ltac:(lia)) as Mo.
    unfold stepOk, noWrap in *. revert C. case_if.
    - simpl in X. bool_prop.
      replace (i2 + 2) with (S (S i2)) by lia.
      replace (i2 + 1) with (S i2) in * by lia.
      lfb_steps code. intros C. step_goals.
    - bool_prop. lfb_steps code. intros C. step_goals. }
  destruct (Ascii.eqb (char_at code i) SQUOTE) eqn:CL.
  { (* character literal *)
    bool_prop.
    destruct (parseCharLiteral code i ln) as [[lex i2] ln2] eqn:P.
    apply parseCharLiteral_spec in P; [|assumption..].
    destruct P as (A & B & L).
    unfold stepOk, tokenOk.
    split; [lia|].
    split; [intros NW; apply (L NW)|].
    split; [intros NW; apply (L NW)|].
    split; [intros NW K; apply (L NW); apply negb_true_iff in K; exact K|].
    intros tk T. pushed_token. repeat split; auto; try congruence.
    apply empty_false_length. rewrite length_span; lia. }
  destruct (Ascii.eqb (char_at code i) DQUOTE) eqn:SL.
  { (* string literal *)
    bool_prop.
    destruct (parseStringLiteral code i ln) as [[lex i2] ln2] eqn:P.
    apply parseStringLiteral_spec in P; [|assumption..].
    destruct P as (A & B & L).
    unfold stepOk, tokenOk.
    split; [lia|].
    split; [intros NW; apply (L NW)|].
    split; [intros NW; apply (L NW)|].
    split; [intros NW K; apply (L NW); apply negb_true_iff in K; exact K|].
    intros tk T. pushed_token. repeat split; auto; try congruence.
    apply empty_false_length. rewrite length_span; lia. }
  destruct (isalpha (char_at code i) || Ascii.eqb (char_at code i) "_")
    eqn:ID.
  { (* identifier or keyword *)
    destruct (identRun (String.length code) code i EmptyString)
      as [id i2] eqn:R.
    pose proof (identRun_exit code (String.length code) i EmptyString id i2
                  ltac:(lia) R) as X.
    apply identRun_spec in R. destruct R as (A & B & C & _ & E).
    simpl in C.
    assert (L : i < i2).
    { destruct (Nat.eq_dec i2 i) as [->|]; [|lia].
      apply Nat.ltb_lt in Hi. rewrite Hi in X. unfold isalnum in X.
      simpl in X. apply orb_true_iff in ID. destruct ID as [G|G];
        rewrite G in X; [discriminate|].
      rewrite orb_true_r in X. discriminate. }
    assert (N : empty id = false).
    { apply empty_false_length. rewrite C, length_span; lia. }
    unfold stepOk, tokenOk.
    case_if; step_goals; try pushed_token; auto. }
  destruct (isdigit (char_at code i)
            || (Ascii.eqb (char_at code i) "."
                && isdigit (peekChar code i 1))) eqn:NB.
  { (* number *)
    destruct (parseNumber code i) as [num i2] eqn:P.
    apply parseNumber_spec in P. destruct P as (A & B & C & D & E).
    destruct (E Hi NB) as [E1 E2].
    assert (N : empty num = false)
      by (destruct num; [discriminate | reflexivity]).
    rewrite N, E1. simpl.
    unfold stepOk, tokenOk.
    step_goals; try pushed_token; auto.
    destruct D as [D|[D1 D2]]; [left | right]; auto. }
  apply operatorRule_spec; assumption.
Qed.

End Step.

(** ** The main loop *)

Section MainLoop.
Variable code : string.
Let n := String.length code.

(** The tokens of a run are the tokens its iterations push, in order. *)
Lemma tokenizeLoop_tokens (fuel : nat) : forall i ln toks,
  fst (fst (tokenizeLoop fuel code i ln toks))
  = toks ++ tokensOf (iterationsFrom fuel code i ln).
Proof.
  induction fuel as [|fuel IH]; intros i ln toks; simpl.
  - rewrite app_nil_r. reflexivity.
  - case_if; [|simpl; rewrite app_nil_r; reflexivity].
    destruct (scanStep code i ln) as [[t i'] ln'].
    rewrite IH. unfold tokensOf. simpl. unfold pushed at 2. simpl.
    destruct t; simpl; [rewrite <- app_assoc|]; reflexivity.
Qed.

(** Every iteration is one [scanStep] from a cursor inside the buffer, and an
    invariant of the steps holds at the start of every iteration. *)
Lemma iterationsFrom_Forall (Inv : nat -> Z -> Prop) :
  (forall i ln, Inv i ln -> i < n ->
     Inv (snd (fst (scanStep code i ln))) (snd (scanStep code i ln))) ->
  forall fuel i ln, Inv i ln ->
  Forall (fun it =>
            Inv (it_pos it) (it_line it)
            /\ it_pos it < n
            /\ scanStep code (it_pos it) (it_line it)
               = (it_token it, it_pos' it, it_line' it))
         (iterationsFrom fuel code i ln).
Proof.
  intros Hstep.
  induction fuel as [|fuel IH]; intros i ln HI; simpl; [constructor|].
  case_if; [|constructor]. bool_prop.
  specialize (Hstep i ln HI Heqb).
  destruct (scanStep code i ln) as [[t i'] ln'] eqn:E. simpl in Hstep.
  constructor; [|apply IH; assumption].
  simpl. rewrite E. auto.
Qed.

Lemma iterations_step (it : Iter) :
  In it (iterations code) ->
  it_pos it < n
  /\ scanStep code (it_pos it) (it_line it)
     = (it_token it, it_pos' it, it_line' it).
Proof.
  intros H.
  pose proof (iterationsFrom_Forall (fun _ _ => True) ltac:(auto)
                n 0 1%Z I) as F.
  rewrite Forall_forall in F. apply F in H. tauto.
Qed.

(** The loop body runs at most once per character left, whatever the fuel. *)
Lemma iterationsFrom_length (fuel : nat) : forall i ln,
  i <= n -> List.length (iterationsFrom fuel code i ln) <= n - i.
Proof.
  induction fuel as [|fuel IH]; intros i ln Hi; simpl; [lia|].
  case_if; [|simpl; lia]. bool_prop.
  pose proof (scanStep_spec code i ln Heqb) as S.
  destruct (scanStep code i ln) as [[t i'] ln']. destruct S as (A & _).
  simpl. specialize (IH i' ln' ltac:(lia)). fold n in A. lia.
Qed.

(** Fuel beyond the number of characters left changes nothing. *)
Lemma tokenizeLoop_fuel (fuel1 : nat) : forall fuel2 i ln toks,
  i <= n -> n - i <= fuel1 -> n - i <= fuel2 ->
  tokenizeLoop fuel1 code i ln toks = tokenizeLoop fuel2 code i ln toks.
Proof.
  induction fuel1 as [|fuel1 IH]; intros [|fuel2] i ln toks Hi F1 F2; simpl;
    try reflexivity.
  - replace (i <? String.length code) with false; [reflexivity|].
    symmetry. apply Nat.ltb_ge. fold n. lia.
  - replace (i <? String.length code) with false; [reflexivity|].
    symmetry. apply Nat.ltb_ge. fold n. lia.
  - case_if; [|reflexivity]. bool_prop.
    pose proof (scanStep_spec code i ln Heqb) as S.
    destruct (scanStep code i ln) as [[t i'] ln']. destruct S as (A & _).
    fold n in A. apply IH; lia.
Qed.

(** With fuel for every character left, the loop stops because [i < n]
    fails: the cursor is at the end of the buffer. *)
Lemma tokenizeLoop_cursor (fuel : nat) : forall i ln toks,
  i <= n -> n - i <= fuel ->
  snd (fst (tokenizeLoop fuel code i ln toks)) = n.
Proof.
  induction fuel as [|fuel IH]; intros i ln toks Hi F; simpl.
  - lia.
  - case_if; bool_prop; [|simpl; fold n in Heqb; lia].
    pose proof (scanStep_spec code i ln Heqb) as S.
    destruct (scanStep code i ln) as [[t i'] ln']. destruct S as (A & _).
    fold n in A. apply IH; lia.
Qed.

(** Every iteration starts at or after the cursor the run starts from, and
    moves its own cursor forward, inside the buffer. *)
Lemma iterationsFrom_pos (fuel : nat) : forall i ln it,
  In it (iterationsFrom fuel code i ln) ->
  i <= it_pos it /\ it_pos it < it_pos' it <= n.
Proof.
  induction fuel as [|fuel IH]; intros i ln it H; simpl in H; [contradiction|].
  case_if; [|contradiction]. bool_prop.
  pose proof (scanStep_spec code i ln Heqb) as S.
  destruct (scanStep code i ln) as [[t i'] ln']. destruct S as (A & _).
  fold n in A. destruct H as [<-|H]; simpl; [lia|].
  apply IH in H. lia.
Qed.

(** A counter that is at least 1 and at most the line number of its cursor
    does not wrap before a cursor whose line number an [int] can hold. *)
Lemma noWrap_below (i i' : nat) (ln : Z) :
  (1 <= ln <= lineOf code i)%Z -> (lineOf code i' <= INT_MAX)%Z ->
  noWrap code i ln i'.
Proof. unfold noWrap, lineOf, INT_MIN. intros [A B] C. split; lia. Qed.

Lemma fewLineFeeds_lineOf (i : nat) :
  fewLineFeeds code -> i <= n -> (lineOf code i <= INT_MAX)%Z.
Proof.
  unfold fewLineFeeds, lineOf. intros F Hi. pose proof (lfb_mono code i n Hi).
  fold n in F. lia.
Qed.

(** On a buffer with fewer than 2^31 - 1 line feeds the line counter is at
    least 1 and at most the number of the line the cursor is on. *)
Lemma iterations_lines (it : Iter) :
  fewLineFeeds code -> In it (iterations code) ->
  (1 <= it_line it <= lineOf code (it_pos it))%Z.
Proof.
  intros FL H.
  pose proof (iterationsFrom_Forall
                (fun i ln => (1 <= ln <= lineOf code i)%Z)) as F.
  specialize (F ltac:(
    intros i ln A Hi; pose proof (scanStep_spec code i ln Hi) as S;
    destruct (scanStep code i ln) as [[t i'] ln'];
    destruct S as (S0 & S1 & S2 & _); simpl;
    pose proof (noWrap_below i i' ln A
                  (fewLineFeeds_lineOf i' FL ltac:(fold n; lia))) as NW;
    specialize (S1 NW); specialize (S2 NW); unfold lineOf in *; lia)).
  specialize (F n 0 1%Z ltac:(unfold lineOf; simpl; lia)).
  rewrite Forall_forall in F. apply F in H. tauto.
Qed.

(** On such a buffer the line counter never leaves the range of an [int]:
    no [++line] of the run wraps. *)
Lemma tokenizeLoop_line_bound (it : Iter) :
  fewLineFeeds code -> In it (iterations code) ->
  (1 <= it_line it <= it_line' it)%Z
  /\ (it_line' it <= lineOf code (it_pos' it) <= INT_MAX)%Z.
Proof.
  intros FL H.
  pose proof (iterations_lines it FL H) as A.
  destruct (iterations_step it H) as [C D].
  pose proof (scanStep_spec code _ (it_line it) C) as S. rewrite D in S.
  destruct S as (S0 & S1 & S2 & _).
  pose proof (fewLineFeeds_lineOf (it_pos' it) FL ltac:(fold n; lia)) as B.
  pose proof (noWrap_below _ (it_pos' it) _ A B) as NW.
  specialize (S1 NW). specialize (S2 NW). unfold lineOf in *. lia.
Qed.


(** Past the end of the buffer the loop does nothing. *)
Lemma tokenizeLoop_done (fuel : nat) (i : nat) (ln : Z) (toks : list Token) :
  n <= i -> tokenizeLoop fuel code i ln toks = (toks, i, ln).
Proof.
  intros H. destruct fuel; simpl; [reflexivity|].
  replace (i <? String.length code) with false; [reflexivity|].
  symmetry. apply Nat.ltb_ge. assumption.
Qed.

End MainLoop.

(** ** The two slips, in general *)

Section SignedRollback.
Variable code : string.
Let n := String.length code.

(** A digit run stops at the first character that is not a digit. *)
Lemma digitRun_run (fuel : nat) : forall i j lex seen,
  i <= j -> j <= n ->
  (forall k, i <= k < j -> isdigit (char_at code k) = true) ->
  (j <? n) && isdigit (char_at code j) = false ->
  j - i <= fuel ->
  digitRun fuel code i lex seen
  = ((lex ++ span code i j)%string, j, seen || (i <? j)).
Proof.
  induction fuel as [|fuel IH]; intros i j lex seen Hij Hj D X F.
  - assert (i = j) as -> by lia. simpl.
    rewrite span_refl, append_nil_r, Nat.ltb_irrefl, orb_false_r.
    reflexivity.
  - simpl. fold n. destruct (Nat.eq_dec i j) as [->|N].
    + rewrite X, span_refl, append_nil_r, Nat.ltb_irrefl, orb_false_r.
      reflexivity.
    + assert (L : i < j) by lia.
      replace (i <? n) with true by (symmetry; apply Nat.ltb_lt; lia).
      rewrite (D i) by lia. simpl.
      rewrite (IH (S i) j) by (try assumption; try lia; intros; apply D; lia).
      rewrite push_back_span by (fold n; lia).
      apply Nat.ltb_lt in L. rewrite L, orb_true_r. reflexivity.
Qed.

(** In general: digits from [i] to [j], then an exponent marker, a sign and
    no digit.  parseNumber puts the cursor back on the marker at [j] and
    returns the digits together with the marker. *)
Lemma signed_rollback_keeps_marker (i j : nat) :
  i < j ->
  (forall k, i <= k < j -> isdigit (char_at code k) = true) ->
  signedRollback code j ->
  parseNumber code i = (span code i (S j), j).
Proof.
  intros Hij D (Hj & M & Sg & X). fold n in Hj, X.
  assert (Mb : Ascii.eqb (char_at code j) "e"
               || Ascii.eqb (char_at code j) "E" = true)
    by (destruct M as [-> | ->]; reflexivity).
  assert (Sb : Ascii.eqb (char_at code (S j)) "+"
               || Ascii.eqb (char_at code (S j)) "-" = true)
    by (destruct Sg as [-> | ->]; reflexivity).
  assert (Nd : (j <? n) && isdigit (char_at code j) = false)
    by (destruct M as [-> | ->]; apply andb_false_r).
  assert (Np : Ascii.eqb (char_at code j) "." = false)
    by (destruct M as [-> | ->]; reflexivity).
  assert (Lj : (j <? n) = true) by (apply Nat.ltb_lt; lia).
  assert (Lsj : (S j <? n) = true) by (apply Nat.ltb_lt; lia).
  unfold parseNumber. fold n.
  rewrite (digitRun_run n i j) by (assumption || lia).
  rewrite Lj, Np. simpl. rewrite Lj, Mb, Lsj, Sb. simpl.
  rewrite (digitRun_run n (S (S j)) (S (S j)))
    by (try assumption; try lia; intros; lia).
  rewrite Nat.ltb_irrefl. cbn [orb negb].
  rewrite span_refl, append_nil_r, erase_push_back.
  simpl. rewrite span_snoc by (fold n; lia). reflexivity.
Qed.

End SignedRollback.

Section Unterminated.
Variable code : string.
Let n := String.length code.

Lemma skipBlock_unterminated (fuel : nat) : forall i ln,
  unterminatedFrom code i -> i < n -> n - 1 - i <= fuel ->
  fst (skipBlock fuel code i ln) = n - 1.
Proof.
  induction fuel as [|fuel IH]; intros i ln U Hi F; simpl.
  - lia.
  - rewrite (U i) by lia. simpl. rewrite andb_true_r.
    destruct (i + 1 <? String.length code) eqn:E; bool_prop.
    + apply IH; [|fold n in E; lia..].
      intros k Hk. apply U. lia.
    + simpl. fold n in E. lia.
Qed.

(** In general: when a block comment of at least one character is not
    closed, the iteration that skips it leaves the cursor on the last
    character of the buffer, not past it. *)
Lemma unterminated_comment_stops_short (i : nat) (ln : Z) :
  i + 2 < n ->
  char_at code i = "/"%char -> char_at code (i + 1) = "*"%char ->
  unterminatedFrom code (i + 2) ->
  fst (fst (scanStep code i ln)) = None
  /\ snd (fst (scanStep code i ln)) = n - 1.
Proof.
  intros Hi C0 C1 U. unfold scanStep.
  rewrite peekChar_in by (fold n; lia). rewrite C0, C1. simpl.
  pose proof (skipBlock_unterminated (String.length code) (i + 2) ln U
                ltac:(lia) ltac:(fold n; lia)) as S.
  destruct (skipBlock (String.length code) code (i + 2) ln) as [i2 ln2].
  simpl in S. subst i2. fold n.
  replace (n - 1 + 1 <? n) with false
    by (symmetry; apply Nat.ltb_ge; lia).
  split; reflexivity.
Qed.

End Unterminated.

(** * The claims *)

(** ** Exponent rollback (C1) *)

(** C1.  The claim says that on "1e+z" the Number token is "1", followed by
    "e", "+" and "z".  The scanner does roll the cursor back to the exponent
    marker, but [lexeme.erase(lexeme.size() - 1)] removes one character only:
    after a sign was pushed it removes the sign and leaves the marker, so the
    Number token is "1e", and the marker is scanned a second time as the
    Identifier "e". *)
Theorem exponent_rollback_keeps_marker :
  parseNumber "1e+z" 0 = ("1e", 1)
  /\ tokenize "1e+z"
     = [ mkToken "1e" TokenType.Number 1;
         mkToken "e" TokenType.Identifier 1;
         mkToken "+" TokenType.Operator 1;
         mkToken "z" TokenType.Identifier 1 ].
Proof. split; reflexivity. Qed.

(** Without a sign the rollback is exact. *)
Example exponent_rollback_unsigned :
  tokenize "1ez"
  = [ mkToken "1" TokenType.Number 1; mkToken "ez" TokenType.Identifier 1 ].
Proof. reflexivity. Qed.

(** ** Total coverage (C2) *)

Section Coverage.
Variable code : string.
Let n := String.length code.

Lemma flatten_pieces (fuel : nat) : forall i ln,
  i <= n -> n - i <= fuel ->
  (forall j, ~ signedRollback code j) ->
  flatten (map (piece code) (iterationsFrom fuel code i ln)) = span code i n.
Proof.
  induction fuel as [|fuel IH]; intros i ln Hi F NR; simpl.
  - replace i with n by lia. rewrite span_refl. reflexivity.
  - case_if; bool_prop.
    + pose proof (scanStep_spec code i ln Heqb) as S.
      destruct (scanStep code i ln) as [[t i'] ln'].
      destruct S as (A & _ & _ & _ & T). fold n in A.
      simpl. rewrite IH by (assumption || lia).
      unfold piece. simpl.
      rewrite <- (span_app code i i' n) by (fold n; lia). f_equal.
      destruct t as [tk|]; [|reflexivity].
      destruct (T tk eq_refl) as (_ & _ & _ & [E|(_ & _ & R)]);
        [assumption | destruct (NR _ R)].
    + simpl. replace i with n by (fold n in Heqb; lia).
      rewrite span_refl. reflexivity.
Qed.

(** Apart from the signed rollback of parseNumber, lexemes and skipped spans
    do reconstruct the buffer. *)
Lemma coverage_without_signed_rollback :
  (forall j, ~ signedRollback code j) -> coverage code = code.
Proof.
  intros NR. unfold coverage, iterations.
  rewrite flatten_pieces by (assumption || lia).
  apply span_all.
Qed.

End Coverage.

(** C2.  The claim says that lexemes and skipped spans reconstruct every
    input, no byte being covered twice.  On "1e+z" they give "1ee+z": the
    marker left in the Number lexeme by the rollback of C1 is also the
    Identifier that follows. *)
Theorem coverage_duplicates_marker :
  map (piece "1e+z") (iterations "1e+z") = ["1e"; "e"; "+"; "z"]
  /\ coverage "1e+z" = "1ee+z"
  /\ coverage "1e+z" <> "1e+z".
Proof. repeat split; try reflexivity. discriminate. Qed.

(** ** Unterminated block comments (C3) *)

(** C3.  The claim says that an unterminated block comment is skipped to the
    end of input and that no token is emitted for any of its characters.  The
    loop [while (i + 1 < n && ...)] stops one character short and
    [if (i + 1 < n) i += 2] then leaves the cursor there: the last character
    of the comment is scanned as ordinary input. *)
Theorem unterminated_comment_last_char :
  iterations "/*a"
  = [ mkIter 0 1 None 2 1;
      mkIter 2 1 (Some (mkToken "a" TokenType.Identifier 1)) 3 1 ]
  /\ tokenize "/*a" = [ mkToken "a" TokenType.Identifier 1 ]
  /\ tokenize "/* x *" = [ mkToken "*" TokenType.Operator 1 ].
Proof. repeat split; reflexivity. Qed.

(** ** Line numbers of tokens (C4) *)

Lemma tokenize_tokensOf (code : string) :
  tokenize code = tokensOf (iterations code).
Proof. unfold tokenize. rewrite tokenizeLoop_tokens. reflexivity. Qed.

Lemma In_tokensOf (its : list Iter) (tk : Token) :
  In tk (tokensOf its) <-> exists it, In it its /\ it_token it = Some tk.
Proof.
  unfold tokensOf. rewrite in_flat_map. split.
  - intros (it & A & B). exists it. split; [assumption|].
    unfold pushed in B. destruct (it_token it); simpl in B; [|tauto].
    destruct B as [->|[]]. reflexivity.
  - intros (it & A & B). exists it. split; [assumption|].
    unfold pushed. rewrite B. left. reflexivity.
Qed.




(** ** Keywords and identifiers (C5) *)

Lemma isKeyword_In (s : string) : isKeyword s = true <-> In s keywords.
Proof.
  unfold isKeyword. rewrite existsb_exists. split.
  - intros (x & Hx & E). apply String.eqb_eq in E. subst. assumption.
  - intros H. exists s. split; [assumption | apply String.eqb_refl].
Qed.

Lemma keywords_NoDup : NoDup keywords.
Proof.
  unfold keywords.
  repeat (constructor; [simpl; intuition discriminate|]).
  constructor.
Qed.

(** A letter or underscore is none of the characters rules 1 to 5 look
    for. *)
Lemma identStart_class (c : ascii) :
  isalpha c || Ascii.eqb c "_" = true ->
  isspace c = false
  /\ Ascii.eqb c "/" = false
  /\ Ascii.eqb c SQUOTE = false
  /\ Ascii.eqb c DQUOTE = false.
Proof.
  destruct c as [[] [] [] [] [] [] [] []]; intros H;
    solve [discriminate H | repeat split].
Qed.

(** C5, as the code has it.  At every cursor position at which the main loop
    finds a letter or an underscore, the iteration pushes exactly one token;
    its lexeme is the longest run of alphanumeric/underscore characters that
    starts at the cursor; it is a Keyword if the lexeme is, character for
    character, one of the 26 words of the keyword set, and an Identifier
    otherwise. *)
Theorem keyword_identifier_partition (code : string) (it : Iter) :
  In it (iterations code) ->
  isalpha (char_at code (it_pos it))
  || Ascii.eqb (char_at code (it_pos it)) "_" = true ->
  exists tk,
    it_token it = Some tk
    /\ In tk (tokenize code)
    /\ lexeme tk = span code (it_pos it) (it_pos' it)
    /\ it_pos it < it_pos' it <= String.length code
    /\ (forall k, it_pos it <= k < it_pos' it ->
          identChar (char_at code k) = true)
    /\ (it_pos' it = String.length code
        \/ identChar (char_at code (it_pos' it)) = false)
    /\ (type tk = TokenType.Keyword /\ In (lexeme tk) keywords
        \/ type tk = TokenType.Identifier /\ ~ In (lexeme tk) keywords)
    /\ line tk = it_line it
    /\ List.length keywords = 26
    /\ NoDup keywords.
Proof.
  intros Hin Hc.
  destruct (iterations_step code it Hin) as [Hi Hs].
  destruct (identStart_class _ Hc) as (C1 & C2 & C3 & C4).
  unfold scanStep in Hs. rewrite C1, C2, C3, C4, Hc in Hs. simpl in Hs.
  destruct (identRun (String.length code) code (it_pos it) EmptyString)
    as [id i2] eqn:R.
  pose proof (identRun_exit code (String.length code) _ _ _ _ ltac:(lia) R)
    as X.
  apply identRun_spec in R. destruct R as (A & B & C & D & _). simpl in C.
  assert (L : it_pos it < i2).
  { destruct (Nat.eq_dec i2 (it_pos it)) as [E|]; [|lia]. rewrite E in X.
    apply Nat.ltb_lt in Hi. rewrite Hi in X. unfold isalnum in X.
    simpl in X. apply orb_true_iff in Hc. destruct Hc as [G|G];
      rewrite G in X; [discriminate|].
    rewrite orb_true_r in X. discriminate. }
  assert (K : forall ty,
             (it_token it, it_pos' it, it_line' it)
             = (Some (mkToken id ty (it_line it)), i2, it_line it) ->
             (ty = TokenType.Keyword /\ In id keywords
              \/ ty = TokenType.Identifier /\ ~ In id keywords) ->
             exists tk,
               it_token it = Some tk
               /\ In tk (tokenize code)
               /\ lexeme tk = span code (it_pos it) (it_pos' it)
               /\ it_pos it < it_pos' it <= String.length code
               /\ (forall k, it_pos it <= k < it_pos' it ->
                     identChar (char_at code k) = true)
               /\ (it_pos' it = String.length code
                   \/ identChar (char_at code (it_pos' it)) = false)
               /\ (type tk = TokenType.Keyword /\ In (lexeme tk) keywords
                   \/ type tk = TokenType.Identifier
                      /\ ~ In (lexeme tk) keywords)
               /\ line tk = it_line it
               /\ List.length keywords = 26
               /\ NoDup keywords).
  { intros ty E Hty. injection E as E1 E2 E3.
    exists (mkToken id ty (it_line it)). rewrite E2. simpl.
    split; [assumption|]. split.
    { rewrite tokenize_tokensOf. apply In_tokensOf. exists it. auto. }
    split; [assumption|]. split; [lia|]. split; [exact D|]. split.
    { apply andb_false_iff in X. destruct X as [X|X].
      - left. apply Nat.ltb_ge in X. lia.
      - right. exact X. }
    split; [assumption|]. split; [reflexivity|]. split; [reflexivity|].
    apply keywords_NoDup. }
  destruct (isKeyword id) eqn:KW.
  - apply (K TokenType.Keyword); [symmetry; assumption|].
    left. split; [reflexivity | apply isKeyword_In; assumption].
  - apply (K TokenType.Identifier); [symmetry; assumption|].
    right. split; [reflexivity|]. intros HI. apply isKeyword_In in HI.
    congruence.
Qed.

Lemma keyword_identifier_partition_witness :
  In intKeywordIter (iterations "int x")
  /\ isalpha (char_at "int x" (it_pos intKeywordIter))
     || Ascii.eqb (char_at "int x" (it_pos intKeywordIter)) "_" = true
  /\ exists tk,
       it_token intKeywordIter = Some tk /\ In tk (tokenize "int x")
       /\ lexeme tk = span "int x" 0 3.
Proof.
  assert (A : In intKeywordIter (iterations "int x")) by (left; reflexivity).
  assert (B : isalpha (char_at "int x" (it_pos intKeywordIter))
              || Ascii.eqb (char_at "int x" (it_pos intKeywordIter)) "_"
              = true) by reflexivity.
  destruct (keyword_identifier_partition "int x" intKeywordIter A B)
    as (tk & C & D & E & _).
  split; [exact A|]. split; [exact B|].
  exists tk. split; [exact C|]. split; [exact D | exact E].
Defined.

(** The keyword set has 26 words, not 25; and the run [e5] of ["1.e5"], which
    is maximal and starts with a letter, is the exponent of the Number token
    and gets no token of its own. *)
Lemma keyword_run_counterexample :
  ~ keywordSetHas25Words /\ ~ everyRunIsOneToken "1.e5".
Proof.
  split.
  - unfold keywordSetHas25Words. simpl. discriminate.
  - intros H.
    assert (M : maximalRun "1.e5" 2 4).
    { unfold maximalRun. split; [simpl; lia|]. split; [reflexivity|].
      split; [|split; [right; reflexivity | left; reflexivity]].
      intros k Hk. assert (k = 2 \/ k = 3) as [->| ->] by lia; reflexivity. }
    destruct (H 2 4 M) as (tk & A & B).
    simpl in A. destruct A as [<-|[]]. discriminate B.
Qed.

(** ** Operators (C6) *)

(** C6.  When none of rules 1 to 7 applies the iteration is the operator
    rule.  The operator rule returns the longest window of three, two or one
    characters at the cursor that is a member of the operator set, as one
    Operator token, and moves the cursor past it; it finds one whenever some
    window of one to three characters at the cursor is an operator.  On
    "<<=x" the Operator token is "<<=". *)
Theorem operator_longest_match (code : string) (i : nat) (ln : Z) :
  (reachesOperatorRule code i = true ->
   scanStep code i ln = operatorRule code (char_at code i) i ln)
  /\ (forall c s, matchOperator code i 3 = Some s ->
        operatorRule code c i ln
        = (Some (mkToken s TokenType.Operator ln), i + String.length s, ln)
        /\ 1 <= String.length s <= 3
        /\ i + String.length s <= String.length code
        /\ s = String.substring i (String.length s) code
        /\ isOperatorString s = true
        /\ (forall m, String.length s < m <= 3 ->
              i + m <= String.length code ->
              isOperatorString (String.substring i m code) = false))
  /\ (forall m, 1 <= m <= 3 -> i + m <= String.length code ->
        isOperatorString (String.substring i m code) = true ->
        exists s, matchOperator code i 3 = Some s /\ m <= String.length s)
  /\ tokenize "<<=x"
     = [ mkToken "<<=" TokenType.Operator 1;
         mkToken "x" TokenType.Identifier 1 ].
Proof.
  split; [|split; [|split]].
  - unfold reachesOperatorRule, scanStep, numberStart. intros H.
    repeat (apply andb_true_iff in H; destruct H as [H ?]).
    repeat match goal with
           | H : negb _ = true |- _ => apply negb_true_iff in H; rewrite H
           end.
    reflexivity.
  - intros c s M. unfold operatorRule. rewrite M.
    apply matchOperator_Some in M. tauto.
  - intros m Hm Fm Op.
    destruct (matchOperator code i 3) as [s|] eqn:M.
    + exists s. split; [reflexivity|].
      apply matchOperator_Some in M. destruct M as (_ & _ & _ & _ & Mx).
      destruct (Nat.le_gt_cases m (String.length s)) as [|G]; [assumption|].
      rewrite Mx in Op by (assumption || lia). discriminate.
    + rewrite (matchOperator_None code i 3 M m) in Op by assumption.
      discriminate.
  - reflexivity.
Qed.

Lemma operator_longest_match_witness :
  reachesOperatorRule "<<=x" 0 = true
  /\ matchOperator "<<=x" 0 3 = Some "<<="
  /\ scanStep "<<=x" 0 1
     = (Some (mkToken "<<=" TokenType.Operator 1), 3, 1%Z)
  /\ isOperatorString (String.substring 0 2 "<<=x") = true
  /\ exists s, matchOperator "<<=x" 0 3 = Some s /\ 2 <= String.length s.
Proof.
  destruct (operator_longest_match "<<=x" 0 1) as (A & B & C & _).
  assert (R : reachesOperatorRule "<<=x" 0 = true) by reflexivity.
  assert (M : matchOperator "<<=x" 0 3 = Some "<<=") by reflexivity.
  assert (O : isOperatorString (String.substring 0 2 "<<=x") = true)
    by reflexivity.
  destruct (B "<"%char "<<=" M) as (B1 & _).
  split; [exact R|]. split; [exact M|]. split.
  - rewrite (A R). exact B1.
  - split; [exact O|]. apply C; [lia | simpl; lia | exact O].
Defined.

(** ** Termination (C7) *)

(** C7.  The scan terminates on every buffer, in at most as many iterations
    of the main loop as the buffer has characters: every iteration from a
    cursor inside the buffer moves the cursor strictly forward and not past
    the end; the loop, run with one unit of fuel per character, stops with
    the cursor at the end of the buffer, and more fuel changes nothing; and
    whatever the fuel, the body runs at most [String.length code] times. *)
Theorem scan_terminates (code : string) :
  (forall i ln, i < String.length code ->
     i < snd (fst (scanStep code i ln)) <= String.length code)
  /\ (forall fuel, String.length code <= fuel ->
        tokenizeLoop fuel code 0 1 []
        = tokenizeLoop (String.length code) code 0 1 [])
  /\ snd (fst (tokenizeLoop (String.length code) code 0 1 []))
     = String.length code
  /\ (forall fuel,
        List.length (iterationsFrom fuel code 0 1) <= String.length code).
Proof.
  split; [|split; [|split]].
  - intros i ln Hi. pose proof (scanStep_spec code i ln Hi) as S.
    destruct (scanStep code i ln) as [[t i'] ln']. destruct S as (A & _).
    exact A.
  - intros fuel F. apply tokenizeLoop_fuel; lia.
  - apply tokenizeLoop_cursor; lia.
  - intros fuel.
    pose proof (iterationsFrom_length code fuel 0 1%Z ltac:(lia)). lia.
Qed.

Lemma scan_terminates_witness :
  0 < String.length "a+b"
  /\ String.length "a+b" <= 7
  /\ 0 < snd (fst (scanStep "a+b" 0 1)) <= String.length "a+b"
  /\ tokenizeLoop 7 "a+b" 0 1 []
     = tokenizeLoop (String.length "a+b") "a+b" 0 1 [].
Proof.
  destruct (scan_terminates "a+b") as (A & B & _).
  assert (H0 : 0 < String.length "a+b") by (simpl; lia).
  assert (H1 : String.length "a+b" <= 7) by (simpl; lia).
  split; [exact H0|]. split; [exact H1|].
  split; [exact (A 0 1%Z H0) | exact (B 7 H1)].
Defined.

(** ** Line numbers never decrease (C8) *)

(** *** Before the counter wraps *)

Section BeforeWrap.
Variable code : string.
Let n := String.length code.

(** A token is pushed with the cursor past the cursor its run started
    from. *)
Lemma cursorsAfter_pos (fuel : nat) : forall i ln j e,
  nth_error (cursorsAfter (iterationsFrom fuel code i ln)) j = Some e ->
  i < e <= n.
Proof.
  intros i ln j e H. apply nth_error_In in H.
  unfold cursorsAfter in H. apply in_flat_map in H.
  destruct H as (it & A & B). apply iterationsFrom_pos in A.
  destruct (it_token it); simpl in B; [|contradiction].
  destruct B as [<-|[]]. fold n in A. lia.
Qed.

(** One iteration, seen from a token pushed later whose cursor lies where
    the line number fits an [int]: the counter does not wrap in it. *)
Lemma step_before (i : nat) (ln : Z) (e : nat) :
  i < n -> (1 <= ln <= lineOf code i)%Z ->
  snd (fst (scanStep code i ln)) <= e -> e <= n ->
  (lineOf code e <= INT_MAX)%Z ->
  (ln <= snd (scanStep code i ln)
   <= lineOf code (snd (fst (scanStep code i ln))))%Z.
Proof.
  intros Hi A B C D. pose proof (scanStep_spec code i ln Hi) as S.
  destruct (scanStep code i ln) as [[t i'] ln']. simpl in *.
  destruct S as (S0 & S1 & S2 & _).
  pose proof (lfb_mono code i' e B) as M.
  assert (NW : noWrap code i ln i')
    by (apply noWrap_below; unfold lineOf in *; lia).
  specialize (S1 NW). specialize (S2 NW). unfold lineOf in *. lia.
Qed.

(** A token pushed where the line number fits an [int] carries at least the
    counter its run started with. *)
Lemma line_lower_bound (fuel : nat) : forall i ln j B e,
  (1 <= ln <= lineOf code i)%Z ->
  nth_error (tokensOf (iterationsFrom fuel code i ln)) j = Some B ->
  nth_error (cursorsAfter (iterationsFrom fuel code i ln)) j = Some e ->
  (lineOf code e <= INT_MAX)%Z ->
  (ln <= line B)%Z.
Proof.
  induction fuel as [|fuel IH]; intros i ln j B e L HB He M.
  - destruct j; discriminate.
  - pose proof (cursorsAfter_pos _ _ _ _ _ He) as P.
    simpl in HB, He. case_if; [|destruct j; discriminate]. bool_prop.
    pose proof (scanStep_spec code i ln Heqb) as S.
    assert (Q : forall j', nth_error (cursorsAfter
                 (iterationsFrom fuel code (snd (fst (scanStep code i ln)))
                    (snd (scanStep code i ln)))) j' = Some e ->
                snd (fst (scanStep code i ln)) <= e)
      by (intros j' X; apply cursorsAfter_pos in X; lia).
    pose proof (fun X => step_before i ln e Heqb L X (proj2 P) M) as SB.
    destruct (scanStep code i ln) as [[t i'] ln']. simpl in Q, SB.
    destruct S as (S0 & _ & _ & _ & T).
    unfold tokensOf, cursorsAfter in HB, He. simpl in HB, He.
    unfold pushed at 1 in HB. simpl in HB.
    destruct t as [tk|]; simpl in HB, He.
    + destruct (T tk eq_refl) as (_ & T1 & _).
      destruct j as [|j]; simpl in HB, He.
      * inv HB. inv He. specialize (SB (le_n _)). lia.
      * specialize (SB (Q _ He)).
        pose proof (IH i' ln' j B e ltac:(lia) HB He M). lia.
    + specialize (SB (Q _ He)).
      pose proof (IH i' ln' j B e ltac:(lia) HB He M). lia.
Qed.

Lemma tokens_sorted_from (fuel : nat) : forall i ln jA jB A B e,
  (1 <= ln <= lineOf code i)%Z ->
  nth_error (tokensOf (iterationsFrom fuel code i ln)) jA = Some A ->
  nth_error (tokensOf (iterationsFrom fuel code i ln)) jB = Some B ->
  nth_error (cursorsAfter (iterationsFrom fuel code i ln)) jB = Some e ->
  jA < jB ->
  (lineOf code e <= INT_MAX)%Z ->
  (line A <= line B)%Z.
Proof.
  induction fuel as [|fuel IH]; intros i ln jA jB A B e L HA HB He Lt M.
  - destruct jA; discriminate.
  - pose proof (cursorsAfter_pos _ _ _ _ _ He) as P.
    simpl in HA, HB, He. case_if; [|destruct jA; discriminate]. bool_prop.
    pose proof (scanStep_spec code i ln Heqb) as S.
    assert (Q : forall j', nth_error (cursorsAfter
                 (iterationsFrom fuel code (snd (fst (scanStep code i ln)))
                    (snd (scanStep code i ln)))) j' = Some e ->
                snd (fst (scanStep code i ln)) <= e)
      by (intros j' X; apply cursorsAfter_pos in X; lia).
    pose proof (fun X => step_before i ln e Heqb L X (proj2 P) M) as SB.
    destruct (scanStep code i ln) as [[t i'] ln']. simpl in Q, SB.
    destruct S as (S0 & _ & _ & _ & T).
    unfold tokensOf, cursorsAfter in HA, HB, He. simpl in HA, HB, He.
    unfold pushed at 1 in HA. unfold pushed at 1 in HB. simpl in HA, HB.
    destruct t as [tk|]; simpl in HA, HB, He.
    + destruct (T tk eq_refl) as (_ & T1 & _).
      destruct jB as [|jB]; [lia|]. simpl in HB, He.
      specialize (SB (Q _ He)).
      destruct jA as [|jA]; simpl in HA.
      * inv HA.
        pose proof (line_lower_bound fuel i' (line A) jB B e
                      ltac:(lia) HB He M). lia.
      * apply (IH i' ln' jA jB A B e); auto; lia.
    + specialize (SB (Q _ He)).
      apply (IH i' ln' jA jB A B e); auto; lia.
Qed.

End BeforeWrap.

(** Every pushed token has its cursor. *)
Lemma cursorsAfter_length (its : list Iter) :
  List.length (cursorsAfter its) = List.length (tokensOf its).
Proof.
  unfold cursorsAfter, tokensOf.
  induction its as [|it its IH]; simpl; [reflexivity|].
  rewrite !length_app, IH. unfold pushed.
  destruct (it_token it); reflexivity.
Qed.

(** On a buffer with fewer than 2^31 - 1 line feeds the lines of the tokens
    never decrease. *)
Lemma fewLineFeeds_nondecreasing (code : string) :
  fewLineFeeds code -> linesNondecreasing code.
Proof.
  intros FL i j A B HA HB L. rewrite tokenize_tokensOf in HA, HB.
  destruct (nth_error (cursorsAfter (iterations code)) j) as [e|] eqn:He.
  - pose proof (cursorsAfter_pos code _ _ _ _ _ He) as P.
    apply (tokens_sorted_from code (String.length code) 0 1%Z i j A B e);
      try assumption.
    + unfold lineOf. simpl. lia.
    + apply fewLineFeeds_lineOf; [assumption | lia].
  - apply nth_error_None in He. rewrite cursorsAfter_length in He.
    assert (X : nth_error (tokensOf (iterations code)) j <> None)
      by congruence.
    apply nth_error_Some in X. unfold iterations in *. lia.
Qed.

(** C8, as the code has it.  If token [A] is emitted before token [B], and
    [B] is pushed with the cursor at a position whose line number fits an
    [int], that is with fewer than 2^31 - 1 line feeds before that position,
    the line of [A] is at most the line of [B]. *)
Theorem line_nondecreasing (code : string) (i j : nat) (A B : Token)
  (e : nat) :
  nth_error (tokenize code) i = Some A ->
  nth_error (tokenize code) j = Some B ->
  i < j ->
  nth_error (cursorsAfter (iterations code)) j = Some e ->
  (lineOf code e <= INT_MAX)%Z ->
  (line A <= line B)%Z.
Proof.
  intros HA HB L He M. rewrite tokenize_tokensOf in HA, HB.
  apply (tokens_sorted_from code (String.length code) 0 1%Z i j A B e);
    try assumption.
  unfold lineOf. simpl. lia.
Qed.

Lemma line_nondecreasing_witness :
  nth_error (tokenize twoLines) 0 = Some (mkToken "a" TokenType.Identifier 1)
  /\ nth_error (tokenize twoLines) 1
     = Some (mkToken "b" TokenType.Identifier 2)
  /\ 0 < 1
  /\ nth_error (cursorsAfter (iterations twoLines)) 1 = Some 3
  /\ (lineOf twoLines 3 <= INT_MAX)%Z
  /\ (line (mkToken "a" TokenType.Identifier 1)
      <= line (mkToken "b" TokenType.Identifier 2))%Z.
Proof.
  assert (HA : nth_error (tokenize twoLines) 0
               = Some (mkToken "a" TokenType.Identifier 1)) by reflexivity.
  assert (HB : nth_error (tokenize twoLines) 1
               = Some (mkToken "b" TokenType.Identifier 2)) by reflexivity.
  assert (L : 0 < 1) by lia.
  assert (He : nth_error (cursorsAfter (iterations twoLines)) 1 = Some 3)
    by reflexivity.
  assert (M : (lineOf twoLines 3 <= INT_MAX)%Z) by (vm_compute; discriminate).
  split; [exact HA|]. split; [exact HB|]. split; [exact L|].
  split; [exact He|]. split; [exact M|].
  exact (line_nondecreasing twoLines 0 1 _ _ 3 HA HB L He M).
Defined.

(** *** After the counter wraps *)

(** One iteration of the main loop from a cursor inside the buffer. *)
Lemma tokenizeLoop_S (fuel : nat) (code : string) (i : nat) (ln : Z)
  (toks : list Token) (t : option Token) (i' : nat) (ln' : Z) :
  i < String.length code -> scanStep code i ln = (t, i', ln') ->
  tokenizeLoop (S fuel) code i ln toks
  = tokenizeLoop fuel code i' ln' (push_token toks t).
Proof.
  intros Hi H. simpl. apply Nat.ltb_lt in Hi. rewrite Hi, H. reflexivity.
Qed.

(** The main loop over [k] line feeds: [k] iterations, no token, [k] times
    [++line]. *)
Lemma lineFeeds_loop (code : string) (k : nat) : forall fuel i ln toks,
  i + k <= String.length code ->
  (forall j, i <= j < i + k -> char_at code j = LF) ->
  tokenizeLoop (k + fuel) code i ln toks
  = tokenizeLoop fuel code (i + k) (Nat.iter k incr ln) toks.
Proof.
  induction k as [|k IH]; intros fuel i ln toks B H.
  - rewrite Nat.add_0_r. reflexivity.
  - cbn [Nat.add tokenizeLoop].
    replace (i <? String.length code) with true
      by (symmetry; apply Nat.ltb_lt; lia).
    unfold scanStep. rewrite (H i) by lia. cbn [isspace nat_of_ascii LF].
    change (isspace LF) with true. cbn iota. rewrite Ascii.eqb_refl.
    cbn [push_token].
    rewrite IH by (try lia; intros; apply H; lia).
    replace (S i + k) with (i + S k) by lia.
    rewrite <- Nat.iter_succ_r. reflexivity.
Qed.

Section Apart.
Variable k : nat.

Lemma length_lineFeeds_b : String.length (lineFeeds k ++ "b") = S k.
Proof. induction k as [|k' IH]; simpl; congruence. Qed.

Lemma length_apart : String.length (apart k) = S (S k).
Proof. unfold apart. simpl. rewrite length_lineFeeds_b. reflexivity. Qed.

Lemma apart_a : char_at (apart k) 0 = "a"%char.
Proof. reflexivity. Qed.

Lemma apart_LF (j : nat) : j < k -> char_at (apart k) (S j) = LF.
Proof.
  unfold apart, char_at. simpl. clear. revert j.
  induction k as [|k' IH]; intros j H; [lia|].
  destruct j as [|j]; simpl; [reflexivity|]. apply IH. lia.
Qed.

Lemma apart_b : char_at (apart k) (S k) = "b"%char.
Proof.
  unfold apart, char_at. simpl.
  induction k as [|k' IH]; simpl; [reflexivity|assumption].
Qed.

End Apart.

(** The letter [a] or [b] with no identifier character after it is scanned
    as a one-letter Identifier. *)
Lemma scanStep_letter (code : string) (i : nat) (ln : Z) (c : ascii) :
  i < String.length code -> char_at code i = c ->
  c = "a"%char \/ c = "b"%char ->
  (S i <? String.length code) && identChar (char_at code (S i)) = false ->
  scanStep code i ln
  = (Some (mkToken (String c EmptyString) TokenType.Identifier ln), S i, ln).
Proof.
  intros Hi Hc Hab X.
  assert (R : identRun (String.length code) code i EmptyString
              = (String c EmptyString, S i)).
  { rewrite (identRun_run code (String.length code) i (S i)); try lia.
    - simpl. rewrite span_one, Hc by assumption. reflexivity.
    - intros j Hj. assert (j = i) as -> by lia. rewrite Hc.
      destruct Hab as [->| ->]; reflexivity.
    - assumption. }
  unfold scanStep. rewrite R, Hc.
  destruct Hab as [->| ->]; reflexivity.
Qed.

(** The two tokens of [apart k], and the line of the second. *)
Lemma tokenize_apart (k : nat) :
  1 <= k ->
  tokenize (apart k)
  = [ mkToken "a" TokenType.Identifier 1;
      mkToken "b" TokenType.Identifier (wrap_int (1 + Z.of_nat k)) ].
Proof.
  intros Hk. unfold tokenize. rewrite length_apart.
  assert (A : scanStep (apart k) 0 1
              = (Some (mkToken "a" TokenType.Identifier 1), 1, 1%Z)).
  { apply scanStep_letter.
    - rewrite length_apart. lia.
    - reflexivity.
    - left. reflexivity.
    - rewrite (apart_LF k 0) by lia. apply andb_false_r. }
  assert (B : forall ln, scanStep (apart k) (1 + k) ln
              = (Some (mkToken "b" TokenType.Identifier ln), S (1 + k), ln)).
  { intros ln. apply scanStep_letter.
    - rewrite length_apart. lia.
    - apply apart_b.
    - right. reflexivity.
    - rewrite length_apart.
      replace (S (1 + k) <? S (S k)) with false
        by (symmetry; apply Nat.ltb_ge; lia).
      reflexivity. }
  assert (L0 : 0 < String.length (apart k)) by (rewrite length_apart; lia).
  assert (L1 : 1 + k < String.length (apart k))
    by (rewrite length_apart; lia).
  rewrite (tokenizeLoop_S _ _ _ _ _ _ _ _ L0 A).
  replace (S k) with (k + 1) by lia.
  assert (F : forall j, 1 <= j < 1 + k -> char_at (apart k) j = LF)
    by (intros [|j] Hj; [lia | apply apart_LF; lia]).
  rewrite (lineFeeds_loop (apart k) k 1 1 1%Z _ ltac:(lia) F).
  rewrite (tokenizeLoop_S _ _ _ _ _ _ _ _ L1 (B _)).
  rewrite iter_incr by (unfold INT_MIN, INT_MAX; lia).
  reflexivity.
Qed.

(** With 2^31 - 1 line feeds between them, [a] carries line 1 and [b]
    line -2^31: the [++line] that would make the counter 2^31 wraps it. *)
Lemma line_wraps_after_int_max :
  ~ linesNondecreasing (apart (Z.to_nat INT_MAX)).
Proof.
  intros H. unfold linesNondecreasing in H.
  assert (K : 1 <= Z.to_nat INT_MAX).
  { apply Nat2Z.inj_le. rewrite INT_MAX_nat. discriminate. }
  rewrite (tokenize_apart _ K), INT_MAX_nat in H.
  change (wrap_int (1 + INT_MAX)) with INT_MIN in H.
  specialize (H 0 1 _ _ eq_refl eq_refl ltac:(lia)).
  apply H. reflexivity.
Qed.

(** ** Lexemes are not empty (C9) *)

(** C9.  Every token of the output has a non-empty lexeme.  (This holds of
    all tokens, those of malformed literals included: a literal's lexeme
    starts with its opening quote.) *)
Theorem lexeme_nonempty (code : string) (tk : Token) :
  In tk (tokenize code) ->
  lexeme tk <> EmptyString /\ 0 < String.length (lexeme tk).
Proof.
  intros H. rewrite tokenize_tokensOf in H. apply In_tokensOf in H.
  destruct H as (it & Hin & Htk).
  destruct (iterations_step code it Hin) as [Hi Hs].
  pose proof (scanStep_spec code _ (it_line it) Hi) as S. rewrite Hs in S.
  destruct S as (_ & _ & _ & _ & T).
  destruct (T tk Htk) as (E & _).
  split.
  - intros C. rewrite C in E. discriminate.
  - apply empty_false_length. assumption.
Qed.

Lemma lexeme_nonempty_witness :
  In (mkToken "'" TokenType.Char 1) (tokenize "'")
  /\ lexeme (mkToken "'" TokenType.Char 1) <> EmptyString.
Proof.
  assert (H : In (mkToken "'" TokenType.Char 1) (tokenize "'"))
    by (left; reflexivity).
  split; [exact H|]. exact (proj1 (lexeme_nonempty "'" _ H)).
Defined.

(** ** The numeric branch always emits a Number (C10) *)

(** A digit or a dot is none of the characters rules 1 to 6 look for. *)
Lemma numberStart_class (c : ascii) :
  isdigit c || Ascii.eqb c "." = true ->
  isspace c = false
  /\ Ascii.eqb c "/" = false
  /\ Ascii.eqb c SQUOTE = false
  /\ Ascii.eqb c DQUOTE = false
  /\ isalpha c || Ascii.eqb c "_" = false.
Proof.
  destruct c as [[] [] [] [] [] [] [] []]; intros H;
    solve [discriminate H | repeat split].
Qed.

(** C10.  Whenever the main loop enters the numeric branch, [parseNumber]
    returns a non-empty lexeme with a digit in it, and the iteration pushes
    it as a Number token: the fall-through to the operator rule is never
    taken. *)
Theorem number_branch_emits_number (code : string) (i : nat) (ln : Z) :
  i < String.length code ->
  numberStart code i = true ->
  exists num i',
    parseNumber code i = (num, i')
    /\ empty num = false
    /\ any_of isdigit num = true
    /\ scanStep code i ln = (Some (mkToken num TokenType.Number ln), i', ln).
Proof.
  intros Hi NS.
  destruct (parseNumber code i) as [num i'] eqn:P.
  pose proof (parseNumber_spec code i num i' P) as (_ & _ & _ & _ & E).
  destruct (E Hi NS) as [E1 _].
  assert (N : empty num = false)
    by (destruct num; [discriminate | reflexivity]).
  exists num, i'. repeat split; try assumption.
  assert (C : isdigit (char_at code i) || Ascii.eqb (char_at code i) "."
              = true).
  { unfold numberStart in NS. apply orb_true_iff in NS.
    destruct NS as [G|G]; [rewrite G; reflexivity|].
    bool_prop. rewrite H. apply orb_true_r. }
  destruct (numberStart_class _ C) as (C1 & C2 & C3 & C4 & C5).
  unfold scanStep. rewrite C1, C2, C3, C4, C5. simpl.
  unfold numberStart in NS. rewrite NS, P, N, E1. reflexivity.
Qed.

Lemma number_branch_emits_number_witness :
  0 < String.length ".45"
  /\ numberStart ".45" 0 = true
  /\ exists num i',
       parseNumber ".45" 0 = (num, i')
       /\ scanStep ".45" 0 1
          = (Some (mkToken num TokenType.Number 1), i', 1%Z).
Proof.
  assert (H0 : 0 < String.length ".45") by (simpl; lia).
  assert (H1 : numberStart ".45" 0 = true) by reflexivity.
  destruct (number_branch_emits_number ".45" 0 1 H0 H1)
    as (num & i' & A & _ & _ & B).
  split; [exact H0|]. split; [exact H1|].
  exists num, i'. split; [exact A | exact B].
Defined.

(** * Further properties of the scanner *)

(** ** Which rule pushed a token *)

Section Inversion.
Variable code : string.
Let n := String.length code.

(** Every token comes from the one rule its type names, applied at the
    cursor of its iteration. *)
Lemma scanStep_pushedBy (i : nat) (ln : Z) (tk : Token) (i' : nat) (ln' : Z) :
  i < n ->
  scanStep code i ln = (Some tk, i', ln') ->
  pushedBy code i ln tk i' ln'.
Proof.
  intros Hi H. unfold scanStep in H. unfold pushedBy.
  unfold reachesOperatorRule, numberStart, identStart.
  destruct (isspace (char_at code i)) eqn:Sp; [discriminate|].
  destruct (Ascii.eqb (char_at code i) "/"
            && Ascii.eqb (peekChar code i 1) "/") eqn:LC; [discriminate|].
  destruct (Ascii.eqb (char_at code i) "/"
            && Ascii.eqb (peekChar code i 1) "*") eqn:BC.
  { destruct (skipBlock _ _ _ _). discriminate. }
  destruct (Ascii.eqb (char_at code i) SQUOTE) eqn:CL.
  { destruct (parseCharLiteral code i ln) as [[lex i2] ln2].
    inv H. simpl. bool_prop. auto. }
  destruct (Ascii.eqb (char_at code i) DQUOTE) eqn:SL.
  { destruct (parseStringLiteral code i ln) as [[lex i2] ln2].
    inv H. simpl. bool_prop. auto. }
  destruct (isalpha (char_at code i) || Ascii.eqb (char_at code i) "_")
    eqn:ID.
  { destruct (identRun (String.length code) code i EmptyString)
      as [id i2].
    destruct (isKeyword id) eqn:KW; inv H; simpl; auto. }
  destruct (isdigit (char_at code i)
            || (Ascii.eqb (char_at code i) "."
                && isdigit (peekChar code i 1))) eqn:NB.
  { destruct (parseNumber code i) as [num i2] eqn:P.
    pose proof (parseNumber_spec code i num i2 P) as (_ & _ & _ & _ & E).
    destruct (E Hi NB) as [E1 _].
    assert (N : empty num = false)
      by (destruct num; [discriminate | reflexivity]).
    rewrite N, E1 in H. simpl in H. inv H. simpl. auto. }
  unfold operatorRule in H.
  destruct (matchOperator code i 3) as [s|] eqn:M.
  - inv H. simpl. auto.
  - destruct (isDelimiter (char_at code i)) eqn:D; inv H; simpl; auto.
Qed.

Lemma iterations_pushedBy (it : Iter) (tk : Token) :
  In it (iterations code) -> it_token it = Some tk ->
  it_pos it < n
  /\ pushedBy code (it_pos it) (it_line it) tk (it_pos' it) (it_line' it).
Proof.
  intros Hin Htk. destruct (iterations_step code it Hin) as [Hi Hs].
  split; [assumption|]. apply scanStep_pushedBy; [assumption|].
  rewrite Hs, Htk. reflexivity.
Qed.

(** A token of the output was pushed by some iteration. *)
Lemma tokenize_pushedBy (tk : Token) :
  In tk (tokenize code) ->
  exists i ln i' ln',
    i < n /\ i < i' <= n /\ pushedBy code i ln tk i' ln'.
Proof.
  intros H. rewrite tokenize_tokensOf in H. apply In_tokensOf in H.
  destruct H as (it & Hin & Htk).
  destruct (iterations_pushedBy it tk Hin Htk) as [Hi P].
  destruct (iterations_step code it Hin) as [_ Hs].
  pose proof (scanStep_spec code _ (it_line it) Hi) as S. rewrite Hs in S.
  destruct S as (A & _).
  exists (it_pos it), (it_line it), (it_pos' it), (it_line' it). auto.
Qed.

End Inversion.

(** ** Lexemes, character by character *)

Lemma all_of_append (p : ascii -> bool) (a b : string) :
  all_of p (a ++ b) = all_of p a && all_of p b.
Proof.
  induction a as [|c a IH]; simpl; [reflexivity|].
  rewrite IH. apply andb_assoc.
Qed.

Lemma all_of_push_back (p : ascii -> bool) (s : string) (c : ascii) :
  all_of p (push_back s c) = all_of p s && p c.
Proof.
  unfold push_back. rewrite all_of_append. simpl.
  rewrite andb_true_r. reflexivity.
Qed.

(** A prefix of a string of [p]-characters is one too. *)
Lemma all_of_erase (p : ascii -> bool) (s : string) : forall k,
  all_of p s = true -> all_of p (erase s k) = true.
Proof.
  unfold erase. induction s as [|c s IH]; intros k H.
  - destruct k; reflexivity.
  - simpl in H. bool_prop. destruct k as [|k]; [reflexivity|].
    simpl. rewrite H. simpl. apply IH. assumption.
Qed.

Lemma all_of_char_at (p : ascii -> bool) (s : string) :
  all_of p s = true ->
  forall k, k < String.length s -> p (char_at s k) = true.
Proof.
  induction s as [|c s IH]; intros H k Hk; simpl in *; [lia|].
  bool_prop. destruct k as [|k]; [assumption|].
  apply (IH H0 k). lia.
Qed.

Section Chars.
Variable code : string.
Let n := String.length code.

Lemma all_of_span (p : ascii -> bool) (j : nat) : forall i,
  i <= j -> j <= n ->
  (forall k, i <= k < j -> p (char_at code k) = true) ->
  all_of p (span code i j) = true.
Proof.
  intros i Hij Hj. remember (j - i) as d eqn:E.
  revert i Hij E. induction d as [|d IH]; intros i Hij E H.
  - replace i with j by lia. rewrite span_refl. reflexivity.
  - rewrite span_cons by (fold n; lia). simpl.
    rewrite (H i) by lia. simpl.
    apply IH; [lia | lia | intros; apply H; lia].
Qed.

Lemma first_span (i j : nat) :
  i < j -> j <= n -> first (span code i j) = Some (char_at code i).
Proof. intros A B. rewrite span_cons by (fold n; lia). reflexivity. Qed.

Lemma span_char_at (i j k : nat) :
  i + k < j -> j <= n -> char_at (span code i j) k = char_at code (i + k).
Proof.
  intros A B. unfold char_at, span.
  rewrite substring_correct1 by lia.
  rewrite Nat.add_comm. reflexivity.
Qed.

Lemma digitRun_chars (p : ascii -> bool) (fuel : nat) :
  (forall c, isdigit c = true -> p c = true) ->
  forall i lex seen lex' i' seen',
    all_of p lex = true ->
    digitRun fuel code i lex seen = (lex', i', seen') ->
    all_of p lex' = true.
Proof.
  intros I. induction fuel as [|fuel IH]; intros i lex seen lex' i' seen' A H;
    simpl in H.
  - inv H. assumption.
  - case_if; [|inv H; assumption]. bool_prop.
    apply IH in H; [assumption|].
    rewrite all_of_push_back, A, (I _ H1). reflexivity.
Qed.

(** A numeric lexeme is made of digits, dots, exponent markers and signs. *)
Lemma parseNumber_chars (i : nat) (num : string) (i' : nat) :
  parseNumber code i = (num, i') -> all_of numberChar num = true.
Proof.
  assert (I : forall c, isdigit c = true -> numberChar c = true).
  { intros c H. unfold numberChar. rewrite H. reflexivity. }
  unfold parseNumber.
  destruct (digitRun (String.length code) code i EmptyString false)
    as [[l1 i1] h1] eqn:D1.
  pose proof (digitRun_chars numberChar _ I i EmptyString false l1 i1 h1
                eq_refl D1) as A1.
  destruct (if (i1 <? String.length code) && Ascii.eqb (char_at code i1) "."
            then digitRun (String.length code) code (S i1)
                   (push_back l1 ".") h1
            else (l1, i1, h1)) as [[l2 i2] h2] eqn:D2.
  assert (A2 : all_of numberChar l2 = true).
  { case_if; [|inv D2; assumption].
    apply (digitRun_chars numberChar _ I _ _ _ _ _ _) in D2; [assumption|].
    rewrite all_of_push_back, A1. reflexivity. }
  clear D1 D2.
  case_if; [|intros H; inv H; assumption].
  bool_prop.
  assert (M : numberChar (char_at code i2) = true).
  { apply orb_true_iff in H0. destruct H0; bool_prop; rewrite H0;
      reflexivity. }
  assert (A3 : all_of numberChar (push_back l2 (char_at code i2)) = true)
    by (rewrite all_of_push_back, A2, M; reflexivity).
  destruct (if (S i2 <? String.length code)
               && (Ascii.eqb (char_at code (S i2)) "+"
                   || Ascii.eqb (char_at code (S i2)) "-")
            then (push_back (push_back l2 (char_at code i2))
                    (char_at code (S i2)), S (S i2))
            else (push_back l2 (char_at code i2), S i2))
    as [l4 i4] eqn:D4.
  assert (A4 : all_of numberChar l4 = true).
  { case_if; inv D4; [|assumption]. bool_prop.
    rewrite all_of_push_back, A3.
    apply orb_true_iff in H2. destruct H2; bool_prop; rewrite H2;
      reflexivity. }
  destruct (digitRun (String.length code) code i4 l4 false)
    as [[l5 i5] e5] eqn:D5.
  pose proof (digitRun_chars numberChar _ I _ _ _ _ _ _ A4 D5) as A5.
  destruct (negb e5); intros R; inv R; [|assumption].
  apply all_of_erase. assumption.
Qed.

End Chars.

(** ** What the tokens of each type look like *)

(** X1.  A Keyword or Identifier token starts with a letter or an
    underscore, consists of letters, digits and underscores only, and is a
    Keyword exactly when its lexeme is one of the keywords. *)
Theorem identifier_token_shape (code : string) (tk : Token) :
  In tk (tokenize code) ->
  type tk = TokenType.Keyword \/ type tk = TokenType.Identifier ->
  (exists c, first (lexeme tk) = Some c /\ identStart c = true)
  /\ all_of identChar (lexeme tk) = true
  /\ (type tk = TokenType.Keyword <-> In (lexeme tk) keywords).
Proof.
  intros Hin Hty.
  destruct (tokenize_pushedBy code tk Hin) as (i & ln & i' & ln' & Hi & B & P).
  unfold pushedBy in P.
  assert (K : identStart (char_at code i) = true
              /\ identRun (String.length code) code i EmptyString
                 = (lexeme tk, i')
              /\ (type tk = TokenType.Keyword <-> In (lexeme tk) keywords)).
  { destruct Hty as [E|E]; rewrite E in P; destruct P as (A & R & Kw);
      (split; [assumption|]); (split; [assumption|]); split; intros H;
      try reflexivity; try congruence.
    - apply isKeyword_In. assumption.
    - apply isKeyword_In in H. congruence. }
  destruct K as (A & R & Kw).
  apply identRun_spec in R. destruct R as (_ & _ & C & D & _). simpl in C.
  rewrite C. split; [|split; [|rewrite <- C; assumption]].
  - exists (char_at code i). split; [|assumption].
    apply first_span; lia.
  - apply all_of_span; [lia | lia | exact D].
Qed.

Lemma identifier_token_shape_witness :
  In (mkToken "x1" TokenType.Identifier 1) (tokenize "int x1")
  /\ all_of identChar "x1" = true.
Proof.
  assert (H : In (mkToken "x1" TokenType.Identifier 1) (tokenize "int x1"))
    by (right; left; reflexivity).
  split; [exact H|].
  exact (proj1 (proj2 (identifier_token_shape "int x1" _ H
                         (or_intror eq_refl)))).
Defined.

(** X2.  A Number token starts with a digit or a dot, has a digit in it, and
    consists of digits, dots, exponent markers and signs only. *)
Theorem number_token_shape (code : string) (tk : Token) :
  In tk (tokenize code) ->
  type tk = TokenType.Number ->
  (exists c, first (lexeme tk) = Some c
             /\ (isdigit c = true \/ c = "."%char))
  /\ any_of isdigit (lexeme tk) = true
  /\ all_of numberChar (lexeme tk) = true.
Proof.
  intros Hin Hty.
  destruct (tokenize_pushedBy code tk Hin) as (i & ln & i' & ln' & Hi & B & P).
  unfold pushedBy in P. rewrite Hty in P. destruct P as [NS PN].
  pose proof (parseNumber_chars code _ _ _ PN) as Ch.
  pose proof (parseNumber_spec code _ _ _ PN) as (_ & _ & _ & Sp & Dg).
  destruct (Dg Hi NS) as [Dg1 _].
  split; [|split; assumption].
  exists (char_at code i). split.
  - destruct Sp as [-> | [-> (R & _)]]; apply first_span; lia.
  - unfold numberStart in NS. apply orb_true_iff in NS.
    destruct NS as [G|G]; [left; assumption|].
    bool_prop. right. assumption.
Qed.

Lemma number_token_shape_witness :
  In (mkToken "1.2e-3" TokenType.Number 1) (tokenize "x=1.2e-3;")
  /\ all_of numberChar "1.2e-3" = true.
Proof.
  assert (H : In (mkToken "1.2e-3" TokenType.Number 1)
                 (tokenize "x=1.2e-3;"))
    by (right; right; left; reflexivity).
  split; [exact H|].
  exact (proj2 (proj2 (number_token_shape "x=1.2e-3;" _ H eq_refl))).
Defined.

(** X3.  An Operator token is a member of the operator set, and a Delimiter
    token is one of the eight delimiter characters. *)
Theorem operator_delimiter_token_shape (code : string) (tk : Token) :
  In tk (tokenize code) ->
  (type tk = TokenType.Operator -> In (lexeme tk) ops)
  /\ (type tk = TokenType.Delimiter ->
      exists c, lexeme tk = String c EmptyString /\ isDelimiter c = true).
Proof.
  intros Hin.
  destruct (tokenize_pushedBy code tk Hin) as (i & ln & i' & ln' & Hi & B & P).
  unfold pushedBy in P. split; intros Hty; rewrite Hty in P.
  - destruct P as [_ M]. apply matchOperator_Some in M.
    destruct M as (_ & _ & _ & O & _). apply isOperatorString_In. exact O.
  - destruct P as (_ & _ & L & D). eauto.
Qed.

Lemma operator_delimiter_token_shape_witness :
  In (mkToken ">>=" TokenType.Operator 1) (tokenize "a>>=b;")
  /\ In ">>=" ops.
Proof.
  assert (H : In (mkToken ">>=" TokenType.Operator 1) (tokenize "a>>=b;"))
    by (right; left; reflexivity).
  split; [exact H|].
  exact (proj1 (operator_delimiter_token_shape "a>>=b;" _ H) eq_refl).
Defined.

(** X4.  An Unknown token is a single character that no other rule takes:
    it is not white space, not a quote, not a letter, digit or underscore,
    not a delimiter and not an operator. *)
Theorem unknown_token_shape (code : string) (tk : Token) :
  In tk (tokenize code) ->
  type tk = TokenType.Unknown ->
  exists c,
    lexeme tk = String c EmptyString
    /\ isspace c = false
    /\ c <> SQUOTE /\ c <> DQUOTE
    /\ identChar c = false
    /\ isDelimiter c = false
    /\ isOperatorString (String c EmptyString) = false.
Proof.
  intros Hin Hty.
  destruct (tokenize_pushedBy code tk Hin) as (i & ln & i' & ln' & Hi & B & P).
  unfold pushedBy in P. rewrite Hty in P. destruct P as (R & M & L & D).
  exists (char_at code i).
  unfold reachesOperatorRule, numberStart in R.
  repeat (apply andb_true_iff in R; destruct R as [R ?]).
  bool_prop.
  repeat match goal with
         | H : Ascii.eqb _ _ = false |- _ => apply Ascii.eqb_neq in H
         end.
  repeat split; try assumption.
  - unfold identChar, isalnum.
    match goal with
    | A : isalpha _ = false, D : isdigit _ = false,
      U : char_at code i <> "_"%char |- _ =>
        rewrite A, D; apply Ascii.eqb_neq in U; rewrite U; reflexivity
    end.
  - pose proof (matchOperator_None code i 3 M 1 ltac:(lia) ltac:(lia)) as O.
    rewrite substring_S, substring_0 in O by assumption. exact O.
Qed.

Lemma unknown_token_shape_witness :
  In (mkToken "@" TokenType.Unknown 1) (tokenize "a @ b")
  /\ exists c, "@" = String c EmptyString /\ isDelimiter c = false.
Proof.
  assert (H : In (mkToken "@" TokenType.Unknown 1) (tokenize "a @ b"))
    by (right; left; reflexivity).
  split; [exact H|].
  destruct (unknown_token_shape "a @ b" _ H eq_refl)
    as (c & A & _ & _ & _ & _ & D & _).
  exists c. split; [exact A | exact D].
Defined.

(** ** Character and string literals *)

Section LiteralContracts.
Variable code : string.
Let n := String.length code.

Lemma stringBody_end (fuel : nat) : forall i ln lex lex' i' ln',
  n <= fuel + i ->
  stringBody fuel code i ln lex = (lex', i', ln') ->
  n <= i' \/ (i < i' /\ char_at code (i' - 1) = DQUOTE).
Proof.
  induction fuel as [|fuel IH]; intros i ln lex lex' i' ln' F H; simpl in H.
  - inv H. left. lia.
  - fold n in H. repeat case_if; bool_prop.
    + apply IH in H; [|lia]. destruct H as [H|[H1 H2]]; [left|right]; auto.
      split; [lia | assumption].
    + apply IH in H; [|lia]. destruct H as [H|[H1 H2]]; [left|right]; auto.
      split; [lia | assumption].
    + inv H. right. simpl. rewrite Nat.sub_0_r. split; [lia | assumption].
    + apply IH in H; [|lia]. destruct H as [H|[H1 H2]]; [left|right]; auto.
      split; [lia | assumption].
    + apply IH in H; [|lia]. destruct H as [H|[H1 H2]]; [left|right]; auto.
      split; [lia | assumption].
    + inv H. left. lia.
Qed.

(** A quote passed by the loop, other than the last character it consumed,
    was the payload of an escape. *)
Lemma stringBody_quotes (fuel : nat) : forall i ln lex lex' i' ln',
  stringBody fuel code i ln lex = (lex', i', ln') ->
  forall k, i <= k -> k + 1 < i' -> char_at code k = DQUOTE ->
    0 < k /\ char_at code (k - 1) = BACKSLASH.
Proof.
  induction fuel as [|fuel IH]; intros i ln lex lex' i' ln' H k A B Q;
    simpl in H.
  - inv H. lia.
  - fold n in H. repeat case_if; bool_prop; try (inv H; lia).
    + (* escape with payload *)
      destruct (Nat.eq_dec k i) as [->|]; [rewrite Heqb0 in Q; discriminate|].
      destruct (Nat.eq_dec k (S i)) as [->|].
      * simpl. rewrite Nat.sub_0_r. split; [lia | assumption].
      * eapply IH; [eassumption | lia | assumption | assumption].
    + (* backslash as the last character *)
      destruct (Nat.eq_dec k i) as [->|]; [rewrite Heqb0 in Q; discriminate|].
      eapply IH; [eassumption | lia | assumption | assumption].
    + destruct (Nat.eq_dec k i) as [->|].
      * apply Ascii.eqb_neq in Heqb1. congruence.
      * eapply IH; [eassumption | lia | assumption | assumption].
    + destruct (Nat.eq_dec k i) as [->|].
      * apply Ascii.eqb_neq in Heqb1. congruence.
      * eapply IH; [eassumption | lia | assumption | assumption].
Qed.

(** X5.  parseStringLiteral, started on an opening quote, returns exactly
    the characters it passed; it stops at the end of the buffer or right
    after a quote; every quote inside, before the last character, follows
    a backslash; and a line counter that can take the line feeds passed
    without leaving the range of [int] does not go down, and goes up by no
    more than the number of those line feeds. *)
Theorem string_literal_contract (i : nat) (ln : Z) (lex : string)
  (i' : nat) (ln' : Z) :
  i < n -> char_at code i = DQUOTE ->
  parseStringLiteral code i ln = (lex, i', ln') ->
  lex = span code i i'
  /\ i < i' <= n
  /\ (i' = n \/ (i + 2 <= i' /\ char_at code (i' - 1) = DQUOTE))
  /\ (forall k, i < k -> k + 1 < i' -> char_at code k = DQUOTE ->
        char_at code (k - 1) = BACKSLASH)
  /\ (noWrap code i ln i' ->
      (ln <= ln'
       <= ln + (lineFeedsBefore code i' - lineFeedsBefore code i))%Z).
Proof.
  intros Hi Hq H.
  pose proof (parseStringLiteral_spec code i ln lex i' ln' Hi Hq H)
    as (A & B & L).
  unfold parseStringLiteral in H.
  pose proof (stringBody_end n (S i) ln _ lex i' ln' ltac:(lia) H) as E.
  pose proof (stringBody_quotes _ _ _ _ _ _ _ H) as Q.
  fold n in A.
  split; [assumption|]. split; [assumption|]. split; [|split].
  - destruct E as [E|[E1 E2]]; [left; lia | right; split; [lia|assumption]].
  - intros k K1 K2 K3. apply (Q k); [lia | assumption | assumption].
  - intros NW. destruct (L NW) as (C & D & _). lia.
Qed.

(** The line counter after a character literal. *)
Lemma parseCharLiteral_line (i : nat) (ln : Z) (lex : string)
  (i' : nat) (ln' : Z) :
  parseCharLiteral code i ln = (lex, i', ln') ->
  i' <= i + 4
  /\ ln' = if (S i <? n) && Ascii.eqb (char_at code (S i)) LF
           then incr ln else ln.
Proof.
  unfold parseCharLiteral. fold n. intros H.
  destruct (n <=? S i) eqn:E0.
  - inv H. bool_prop.
    replace (S i <? n) with false by (symmetry; apply Nat.ltb_ge; lia).
    split; [lia | reflexivity].
  - bool_prop.
    replace (S i <? n) with true by (symmetry; apply Nat.ltb_lt; lia).
    simpl.
    destruct (Ascii.eqb (char_at code (S i)) BACKSLASH) eqn:E1.
    + bool_prop. rewrite E1. simpl.
      repeat case_if; inv H; split; (lia || reflexivity).
    + destruct (Ascii.eqb (char_at code (S i)) LF) eqn:E2;
        repeat case_if; inv H; split; (lia || reflexivity).
Qed.

(** X6.  parseCharLiteral, started on an opening quote, passes at most four
    characters and returns exactly those; it runs [++line] once when the
    character after the opening quote is a line feed, which adds one to a
    counter below [INT_MAX], and leaves the counter as it is otherwise. *)
Theorem char_literal_contract (i : nat) (ln : Z) (lex : string)
  (i' : nat) (ln' : Z) :
  i < n -> char_at code i = SQUOTE ->
  parseCharLiteral code i ln = (lex, i', ln') ->
  lex = span code i i'
  /\ i < i' <= n
  /\ i' <= i + 4
  /\ (char_at code (S i) = LF /\ S i < n ->
      ln' = incr ln
      /\ ((INT_MIN <= ln < INT_MAX)%Z -> ln' = (ln + 1)%Z)
      /\ (ln = INT_MAX -> ln' = INT_MIN))
  /\ (char_at code (S i) <> LF \/ n <= S i -> ln' = ln).
Proof.
  intros Hi Hq H.
  pose proof (parseCharLiteral_spec code i ln lex i' ln' Hi Hq H)
    as (A & B & _).
  apply parseCharLiteral_line in H. destruct H as [L1 L2].
  split; [assumption|]. split; [assumption|]. split; [assumption|]. split.
  - intros [E F]. rewrite E in L2. apply Nat.ltb_lt in F. rewrite F in L2.
    simpl in L2. split; [assumption|]. split.
    + intros R. rewrite L2. apply incr_small. assumption.
    + intros ->. rewrite L2. apply incr_INT_MAX.
  - intros [E|E]; rewrite L2.
    + apply Ascii.eqb_neq in E. rewrite E, andb_false_r. reflexivity.
    + apply Nat.ltb_ge in E. rewrite E. reflexivity.
Qed.

End LiteralContracts.

Lemma string_literal_contract_witness :
  0 < String.length twoLineString
  /\ char_at twoLineString 0 = DQUOTE
  /\ parseStringLiteral twoLineString 0 1 = (twoLineString, 5, 2%Z)
  /\ noWrap twoLineString 0 1 5
  /\ twoLineString = span twoLineString 0 5
  /\ (1 <= 2
      <= 1 + (lineFeedsBefore twoLineString 5
              - lineFeedsBefore twoLineString 0))%Z.
Proof.
  assert (A : 0 < String.length twoLineString) by (simpl; lia).
  assert (B : char_at twoLineString 0 = DQUOTE) by reflexivity.
  assert (C : parseStringLiteral twoLineString 0 1 = (twoLineString, 5, 2%Z))
    by reflexivity.
  assert (D : noWrap twoLineString 0 1 5)
    by (split; vm_compute; discriminate).
  split; [exact A|]. split; [exact B|]. split; [exact C|]. split; [exact D|].
  pose proof (string_literal_contract twoLineString 0 1 _ _ _ A B C)
    as (E & _ & _ & _ & F).
  split; [exact E | exact (F D)].
Defined.

Lemma char_literal_contract_witness :
  0 < String.length (String SQUOTE (String LF "'"))
  /\ char_at (String SQUOTE (String LF "'")) 0 = SQUOTE
  /\ parseCharLiteral (String SQUOTE (String LF "'")) 0 1
     = (String SQUOTE (String LF "'"), 3, 2%Z)
  /\ char_at (String SQUOTE (String LF "'")) 1 = LF
  /\ 1 < String.length (String SQUOTE (String LF "'"))
  /\ (INT_MIN <= 1 < INT_MAX)%Z
  /\ 2%Z = (1 + 1)%Z.
Proof.
  assert (A : 0 < String.length (String SQUOTE (String LF "'")))
    by (simpl; lia).
  assert (B : char_at (String SQUOTE (String LF "'")) 0 = SQUOTE)
    by reflexivity.
  assert (C : parseCharLiteral (String SQUOTE (String LF "'")) 0 1
              = (String SQUOTE (String LF "'"), 3, 2%Z)) by reflexivity.
  assert (D : char_at (String SQUOTE (String LF "'")) 1 = LF) by reflexivity.
  assert (E : 1 < String.length (String SQUOTE (String LF "'")))
    by (simpl; lia).
  assert (F : (INT_MIN <= 1 < INT_MAX)%Z)
    by (split; [discriminate | reflexivity]).
  split; [exact A|]. split; [exact B|]. split; [exact C|]. split; [exact D|].
  split; [exact E|]. split; [exact F|].
  pose proof (char_literal_contract _ 0 1 _ _ _ A B C)
    as (_ & _ & _ & G & _).
  exact (proj1 (proj2 (G (conj D E))) F).
Defined.

(** X7.  A Char token starts with a single quote and has one to four
    characters; a String token starts with a double quote, and every double
    quote in it other than the first and the last character follows a
    backslash. *)
Theorem literal_token_shape (code : string) (tk : Token) :
  In tk (tokenize code) ->
  (type tk = TokenType.Char ->
   first (lexeme tk) = Some SQUOTE
   /\ 1 <= String.length (lexeme tk) <= 4)
  /\ (type tk = TokenType.String ->
      first (lexeme tk) = Some DQUOTE
      /\ forall k, 0 < k -> k + 1 < String.length (lexeme tk) ->
           char_at (lexeme tk) k = DQUOTE ->
           char_at (lexeme tk) (k - 1) = BACKSLASH).
Proof.
  intros Hin.
  destruct (tokenize_pushedBy code tk Hin) as (i & ln & i' & ln' & Hi & B & P).
  unfold pushedBy in P. split; intros Hty; rewrite Hty in P;
    destruct P as [Q H].
  - pose proof (parseCharLiteral_spec code _ _ _ _ _ Hi Q H) as (_ & L & _).
    apply parseCharLiteral_line in H. destruct H as [H _].
    rewrite L, first_span, length_span, Q by lia.
    split; [reflexivity | lia].
  - pose proof (parseStringLiteral_spec code _ _ _ _ _ Hi Q H) as (_ & L & _).
    unfold parseStringLiteral in H.
    pose proof (stringBody_quotes code _ _ _ _ _ _ _ H) as SQ.
    rewrite L, first_span, length_span, Q by lia.
    split; [reflexivity|].
    intros k K1 K2 K3.
    rewrite span_char_at in K3 by lia.
    rewrite span_char_at by lia.
    destruct (SQ (i + k) ltac:(lia) ltac:(lia) K3) as [_ E].
    replace (i + (k - 1)) with (i + k - 1) by lia. exact E.
Qed.

Lemma literal_token_shape_witness :
  In twoLineStringToken (tokenize twoLineString)
  /\ first (lexeme twoLineStringToken) = Some DQUOTE.
Proof.
  assert (H : In twoLineStringToken (tokenize twoLineString))
    by (left; reflexivity).
  split; [exact H|].
  exact (proj1 (proj2 (literal_token_shape twoLineString _ H) eq_refl)).
Defined.

(** ** Comments *)

Section Comments.
Variable code : string.
Let n := String.length code.

Lemma skipLine_noLF (fuel : nat) : forall i k,
  i <= k < skipLine fuel code i -> char_at code k <> LF.
Proof.
  induction fuel as [|fuel IH]; intros i k H; simpl in H; [lia|].
  case_if; [|lia]. bool_prop.
  destruct (Nat.eq_dec k i) as [->|].
  - apply Ascii.eqb_neq. assumption.
  - apply (IH (S i)). lia.
Qed.

(** X8.  At [//] the iteration pushes no token and leaves the line counter
    alone; it moves the cursor over characters that are not line feeds and
    stops at the end of the buffer or on the first line feed. *)
Theorem line_comment_skip (i : nat) (ln : Z) :
  i < n ->
  char_at code i = "/"%char -> peekChar code i 1 = "/"%char ->
  exists i',
    scanStep code i ln = (None, i', ln)
    /\ i + 2 <= i' <= n
    /\ (forall k, i <= k < i' -> char_at code k <> LF)
    /\ (i' = n \/ char_at code i' = LF).
Proof.
  intros Hi C0 C1.
  assert (L : i + 1 < n)
    by (apply peekChar_not_NUL; rewrite C1; discriminate).
  exists (skipLine n code (i + 2)).
  destruct (skipLine_spec code n (i + 2)) as (A & B & _).
  pose proof (skipLine_exit code n (i + 2) ltac:(lia)) as X. simpl in X.
  split; [|split; [|split]].
  - unfold scanStep. rewrite C0, C1. reflexivity.
  - fold n in B. lia.
  - intros k Hk.
    destruct (Nat.eq_dec k i) as [->|]; [rewrite C0; discriminate|].
    destruct (Nat.eq_dec k (i + 1)) as [->|].
    + rewrite peekChar_in in C1 by (fold n; lia). rewrite C1. discriminate.
    + apply (skipLine_noLF n (i + 2)). lia.
  - fold n in X, B. apply andb_false_iff in X. destruct X as [X|X].
    + left. apply Nat.ltb_ge in X. lia.
    + right. bool_prop. assumption.
Qed.

(** The cursor of a block-comment body stops at the first closing marker,
    whatever the line counter does. *)
Lemma skipBlock_cursor (fuel : nat) : forall i j ln,
  i <= j -> j + 1 < n ->
  (forall k, i <= k < j ->
     Ascii.eqb (char_at code k) "*" && Ascii.eqb (char_at code (k + 1)) "/"
     = false) ->
  char_at code j = "*"%char -> char_at code (j + 1) = "/"%char ->
  j - i <= fuel ->
  fst (skipBlock fuel code i ln) = j.
Proof.
  induction fuel as [|fuel IH]; intros i j ln Hij Hj NC C0 C1 F.
  - simpl. lia.
  - simpl. fold n. destruct (Nat.eq_dec i j) as [->|N].
    + rewrite C0, C1. simpl. rewrite andb_false_r. reflexivity.
    + replace (i + 1 <? n) with true by (symmetry; apply Nat.ltb_lt; lia).
      rewrite (NC i) by lia. simpl.
      apply IH; try assumption; try lia. intros; apply NC; lia.
Qed.

(** A block-comment body up to the first closing marker. *)
Lemma skipBlock_run (fuel : nat) : forall i j ln,
  i <= j -> j + 1 < n ->
  (forall k, i <= k < j ->
     Ascii.eqb (char_at code k) "*" && Ascii.eqb (char_at code (k + 1)) "/"
     = false) ->
  char_at code j = "*"%char -> char_at code (j + 1) = "/"%char ->
  j - i <= fuel ->
  noWrap code i ln j ->
  skipBlock fuel code i ln
  = (j, (ln + (lineFeedsBefore code j - lineFeedsBefore code i))%Z).
Proof.
  induction fuel as [|fuel IH]; intros i j ln Hij Hj NC C0 C1 F NW.
  - assert (i = j) as -> by lia. simpl. f_equal. lia.
  - simpl. fold n. destruct (Nat.eq_dec i j) as [->|N].
    + rewrite C0, C1. simpl. rewrite andb_false_r. f_equal. lia.
    + replace (i + 1 <? n) with true by (symmetry; apply Nat.ltb_lt; lia).
      rewrite (NC i) by lia. simpl.
      destruct (Ascii.eqb (char_at code i) LF) eqn:E.
      * bool_prop.
        rewrite (incr_at_LF code i i j ln NW)
          by (fold n; lia || assumption).
        assert (NW' : noWrap code (S i) (ln + 1) j).
        { destruct NW as [N1 N2]. split; [lia|].
          rewrite (lfb_S_LF code i) by (fold n; lia || assumption). lia. }
        rewrite (IH (S i) j)
          by (try assumption; try lia; intros; apply NC; lia).
        f_equal.
        rewrite (lfb_S_LF code i) by (fold n; lia || assumption). lia.
      * apply Ascii.eqb_neq in E.
        assert (NW' : noWrap code (S i) ln j).
        { destruct NW as [N1 N2]. split; [lia|].
          rewrite (lfb_S_other code i) by assumption. lia. }
        rewrite (IH (S i) j)
          by (try assumption; try lia; intros; apply NC; lia).
        f_equal. rewrite (lfb_S_other code i) by assumption. lia.
Qed.

(** X9.  At [/*] the iteration pushes no token; when [j] is the first
    position at or after [i + 2] where a closing marker starts, it leaves the
    cursor just after that marker; and a line counter that can take the line
    feeds of the comment without leaving the range of [int] grows by their
    number.  The star of the opening marker is not part of a closing
    marker. *)
Theorem block_comment_skip (i j : nat) (ln : Z) :
  char_at code i = "/"%char -> char_at code (i + 1) = "*"%char ->
  i + 2 <= j -> j + 1 < n ->
  char_at code j = "*"%char -> char_at code (j + 1) = "/"%char ->
  (forall k, i + 2 <= k < j ->
     ~ (char_at code k = "*"%char /\ char_at code (k + 1) = "/"%char)) ->
  (exists ln', scanStep code i ln = (None, j + 2, ln'))
  /\ (noWrap code i ln (j + 2) ->
      scanStep code i ln
      = (None, j + 2,
         (ln + (lineFeedsBefore code (j + 2) - lineFeedsBefore code i))%Z)).
Proof.
  intros C0 C1 Hij Hj J0 J1 NC.
  assert (NC' : forall k, i + 2 <= k < j ->
            Ascii.eqb (char_at code k) "*"
            && Ascii.eqb (char_at code (k + 1)) "/" = false).
  { intros k Hk. specialize (NC k Hk).
    destruct (Ascii.eqb (char_at code k) "*") eqn:E1; [|reflexivity].
    destruct (Ascii.eqb (char_at code (k + 1)) "/") eqn:E2; [|reflexivity].
    bool_prop. tauto. }
  assert (L : (lineFeedsBefore code (j + 2) - lineFeedsBefore code i
               = lineFeedsBefore code j - lineFeedsBefore code (i + 2))%Z).
  { replace (i + 2) with (S (S i)) by lia.
    replace (j + 2) with (S (S j)) by lia.
    replace (i + 1) with (S i) in C1 by lia.
    replace (j + 1) with (S j) in J1 by lia.
    rewrite (lfb_S_other code (S j)) by (rewrite J1; discriminate).
    rewrite (lfb_S_other code j) by (rewrite J0; discriminate).
    rewrite (lfb_S_other code (S i)) by (rewrite C1; discriminate).
    rewrite (lfb_S_other code i) by (rewrite C0; discriminate).
    reflexivity. }
  split.
  - unfold scanStep. rewrite peekChar_in by (fold n; lia).
    rewrite C0, C1. simpl. fold n.
    destruct (skipBlock n code (i + 2) ln) as [i2 ln2] eqn:SB.
    pose proof (skipBlock_cursor n (i + 2) j ln Hij Hj NC' J0 J1 ltac:(lia))
      as SC.
    rewrite SB in SC. simpl in SC. subst i2.
    replace (j + 1 <? n) with true by (symmetry; apply Nat.ltb_lt; lia).
    exists ln2. reflexivity.
  - intros NW.
    assert (NW' : noWrap code (i + 2) ln j)
      by (destruct NW as [N1 N2]; split; [assumption | lia]).
    unfold scanStep. rewrite peekChar_in by (fold n; lia).
    rewrite C0, C1. simpl. fold n.
    rewrite (skipBlock_run n (i + 2) j ln Hij Hj NC' J0 J1 ltac:(lia) NW').
    replace (j + 1 <? n) with true by (symmetry; apply Nat.ltb_lt; lia).
    rewrite L. reflexivity.
Qed.

End Comments.

Lemma line_comment_skip_witness :
  0 < String.length "// a"
  /\ char_at "// a" 0 = "/"%char
  /\ peekChar "// a" 0 1 = "/"%char
  /\ exists i', scanStep "// a" 0 1 = (None, i', 1%Z) /\ 2 <= i' <= 4.
Proof.
  assert (A : 0 < String.length "// a") by (simpl; lia).
  assert (B : char_at "// a" 0 = "/"%char) by reflexivity.
  assert (C : peekChar "// a" 0 1 = "/"%char) by reflexivity.
  destruct (line_comment_skip "// a" 0 1 A B C) as (i' & D & E & _).
  split; [exact A|]. split; [exact B|]. split; [exact C|].
  exists i'. split; [exact D | exact E].
Defined.

Lemma block_comment_skip_witness :
  char_at "/*/*/x" 0 = "/"%char
  /\ char_at "/*/*/x" (0 + 1) = "*"%char
  /\ 0 + 2 <= 3
  /\ 3 + 1 < String.length "/*/*/x"
  /\ char_at "/*/*/x" 3 = "*"%char
  /\ char_at "/*/*/x" (3 + 1) = "/"%char
  /\ noWrap "/*/*/x" 0 1 (3 + 2)
  /\ scanStep "/*/*/x" 0 1
     = (None, 3 + 2,
        (1 + (lineFeedsBefore "/*/*/x" (3 + 2)
              - lineFeedsBefore "/*/*/x" 0))%Z).
Proof.
  assert (NC : forall k, 0 + 2 <= k < 3 ->
            ~ (char_at "/*/*/x" k = "*"%char
               /\ char_at "/*/*/x" (k + 1) = "/"%char)).
  { intros k Hk. assert (k = 2) as -> by lia.
    simpl. intros [E _]. discriminate E. }
  assert (A : 0 + 2 <= 3) by lia.
  assert (B : 3 + 1 < String.length "/*/*/x") by (simpl; lia).
  assert (NW : noWrap "/*/*/x" 0 1 (3 + 2))
    by (split; vm_compute; discriminate).
  split; [reflexivity|]. split; [reflexivity|]. split; [exact A|].
  split; [exact B|]. split; [reflexivity|]. split; [reflexivity|].
  split; [exact NW|].
  exact (proj2 (block_comment_skip "/*/*/x" 0 3 1 eq_refl eq_refl
                  A B eq_refl eq_refl NC) NW).
Defined.

(** ** Whole scans *)

Section WholeScans.
Variable code : string.
Let n := String.length code.

(** A buffer that one iteration consumes whole. *)
Lemma tokenize_single (t : option Token) (ln' : Z) :
  0 < n -> scanStep code 0 1 = (t, n, ln') ->
  tokenize code = push_token [] t.
Proof.
  intros Hn H. unfold tokenize. fold n.
  destruct n as [|m] eqn:E; [lia|].
  cbn [tokenizeLoop]. replace (0 <? String.length code) with true
    by (symmetry; apply Nat.ltb_lt; fold n; lia).
  rewrite H, tokenizeLoop_done by (fold n; lia). reflexivity.
Qed.

Lemma whitespace_loop (fuel : nat) : forall i ln toks,
  (forall k, i <= k < n -> isspace (char_at code k) = true) ->
  fst (fst (tokenizeLoop fuel code i ln toks)) = toks.
Proof.
  induction fuel as [|fuel IH]; intros i ln toks W; simpl; [reflexivity|].
  case_if; [|reflexivity]. bool_prop.
  unfold scanStep. rewrite (W i) by (fold n; lia).
  apply IH. intros k Hk. apply W. lia.
Qed.

(** X10.  A buffer of white space only gives no token. *)
Theorem whitespace_only_no_tokens :
  all_of isspace code = true -> tokenize code = [].
Proof.
  intros H. unfold tokenize. apply whitespace_loop.
  intros k Hk. apply (all_of_char_at isspace code H k). unfold n in *. lia.
Qed.



(** X12.  On a buffer with fewer than 2^31 - 1 line feeds, every token's
    line is at least 1 and at most one more than the number of line feeds in
    the buffer. *)
Theorem token_line_bounds (tk : Token) :
  fewLineFeeds code ->
  In tk (tokenize code) ->
  (1 <= line tk <= lineOf code (String.length code))%Z.
Proof.
  intros FL H. rewrite tokenize_tokensOf in H. apply In_tokensOf in H.
  destruct H as (it & Hin & Htk).
  destruct (tokenizeLoop_line_bound code it FL Hin) as [A B].
  destruct (iterations_step code it Hin) as [Hi Hs].
  pose proof (scanStep_spec code _ (it_line it) Hi) as S. rewrite Hs in S.
  destruct S as (S0 & _ & _ & _ & T).
  destruct (T tk Htk) as (_ & T1 & _).
  pose proof (lfb_mono code (it_pos' it) (String.length code) ltac:(lia)).
  unfold lineOf in *. lia.
Qed.

Lemma flatten_spans (fuel : nat) : forall i ln,
  i <= n -> n - i <= fuel ->
  flatten (map (fun it => span code (it_pos it) (it_pos' it))
               (iterationsFrom fuel code i ln))
  = span code i n.
Proof.
  induction fuel as [|fuel IH]; intros i ln Hi F; simpl.
  - replace i with n by lia. rewrite span_refl. reflexivity.
  - case_if; bool_prop.
    + pose proof (scanStep_spec code i ln Heqb) as S.
      destruct (scanStep code i ln) as [[t i'] ln'].
      destruct S as (A & _). fold n in A.
      simpl. rewrite IH by lia.
      apply span_app; fold n; lia.
    + simpl. replace i with n by (fold n in Heqb; lia).
      rewrite span_refl. reflexivity.
Qed.

(** X13.  The stretches of the buffer that the iterations pass over, taken
    in order, are the buffer: the cursor skips nothing and goes over nothing
    twice. *)
Theorem spans_tile_buffer :
  flatten (map (fun it => span code (it_pos it) (it_pos' it))
               (iterations code))
  = code.
Proof.
  unfold iterations. rewrite flatten_spans by lia. apply span_all.
Qed.

End WholeScans.

Lemma whitespace_only_no_tokens_witness :
  all_of isspace (String " " (String LF " ")) = true
  /\ tokenize (String " " (String LF " ")) = [].
Proof.
  assert (H : all_of isspace (String " " (String LF " ")) = true)
    by reflexivity.
  split; [exact H | exact (whitespace_only_no_tokens _ H)].
Defined.

Lemma token_line_bounds_witness :
  fewLineFeeds twoLines
  /\ In (mkToken "b" TokenType.Identifier 2) (tokenize twoLines)
  /\ (1 <= 2 <= lineOf twoLines 3)%Z.
Proof.
  assert (F : fewLineFeeds twoLines) by (vm_compute; discriminate).
  assert (H : In (mkToken "b" TokenType.Identifier 2) (tokenize twoLines))
    by (right; left; reflexivity).
  split; [exact F|].
  split; [exact H | exact (token_line_bounds twoLines _ F H)].
Defined.

(** ** Lexemes scanned on their own *)

Section Alone.
Variable code : string.
Let n := String.length code.

(** X14.  A buffer that starts with a letter or an underscore and holds
    letters, digits and underscores only is scanned as one token with the
    whole buffer as its lexeme: a Keyword if it is one of the keywords, an
    Identifier otherwise. *)
Theorem identifier_scanned_alone (c : ascii) :
  first code = Some c -> identStart c = true ->
  all_of identChar code = true ->
  tokenize code
  = [ mkToken code
        (if isKeyword code then TokenType.Keyword else TokenType.Identifier)
        1 ].
Proof.
  intros Hf Hs Ha.
  assert (Hn : 0 < n) by (unfold n; destruct code; [discriminate|simpl; lia]).
  assert (Hc : char_at code 0 = c)
    by (destruct code; [discriminate | inv Hf; reflexivity]).
  assert (R : identRun n code 0 EmptyString = (code, n)).
  { rewrite (identRun_run code n 0 n); try lia.
    - simpl. rewrite span_all. reflexivity.
    - intros k Hk. apply all_of_char_at; [assumption | fold n; lia].
    - rewrite Nat.ltb_irrefl. reflexivity. }
  unfold identStart in Hs. rewrite <- Hc in Hs.
  destruct (identStart_class _ Hs) as (C1 & C2 & C3 & C4).
  assert (S : scanStep code 0 1
              = (Some (mkToken code
                         (if isKeyword code then TokenType.Keyword
                          else TokenType.Identifier) 1), n, 1%Z)).
  { unfold scanStep. rewrite C1, C2, C3, C4, Hs. simpl. fold n. rewrite R.
    destruct (isKeyword code); reflexivity. }
  rewrite (tokenize_single code _ _ Hn S). reflexivity.
Qed.

(** X15.  A non-empty buffer of digits only is scanned as one Number token
    with the whole buffer as its lexeme. *)
Theorem digits_scanned_alone :
  code <> EmptyString -> all_of isdigit code = true ->
  tokenize code = [ mkToken code TokenType.Number 1 ].
Proof.
  intros Hne Ha.
  assert (Hn : 0 < n) by (unfold n; destruct code; [congruence|simpl; lia]).
  assert (D : forall k, k < n -> isdigit (char_at code k) = true)
    by (intros; apply all_of_char_at; assumption).
  assert (P : parseNumber code 0 = (code, n)).
  { unfold parseNumber. fold n.
    rewrite (digitRun_run code n 0 n EmptyString false
               ltac:(lia) ltac:(fold n; lia)
               ltac:(intros; apply D; lia)
               ltac:(fold n; rewrite Nat.ltb_irrefl; reflexivity)
               ltac:(lia)).
    rewrite Nat.ltb_irrefl. simpl. rewrite Nat.ltb_irrefl. simpl.
    rewrite span_all. reflexivity. }
  assert (C : isdigit (char_at code 0) || Ascii.eqb (char_at code 0) "."
              = true) by (rewrite (D 0 Hn); reflexivity).
  destruct (numberStart_class _ C) as (C1 & C2 & C3 & C4 & C5).
  assert (A : any_of isdigit code = true).
  { destruct code as [|c s]; [congruence|]. simpl.
    change c with (char_at (String c s) 0). rewrite (D 0 Hn). reflexivity. }
  assert (E : empty code = false) by (destruct code; [congruence|reflexivity]).
  assert (S : scanStep code 0 1
              = (Some (mkToken code TokenType.Number 1), n, 1%Z)).
  { unfold scanStep. rewrite C1, C2, C3, C4, C5, (D 0 Hn). simpl.
    rewrite P, E, A. reflexivity. }
  rewrite (tokenize_single code _ _ Hn S). reflexivity.
Qed.

End Alone.

Lemma identifier_scanned_alone_witness :
  first "while" = Some "w"%char
  /\ identStart "w" = true
  /\ all_of identChar "while" = true
  /\ tokenize "while" = [ mkToken "while" TokenType.Keyword 1 ].
Proof.
  assert (A : first "while" = Some "w"%char) by reflexivity.
  assert (B : identStart "w" = true) by reflexivity.
  assert (C : all_of identChar "while" = true) by reflexivity.
  split; [exact A|]. split; [exact B|]. split; [exact C|].
  exact (identifier_scanned_alone "while" "w" A B C).
Defined.

Lemma digits_scanned_alone_witness :
  "2024" <> EmptyString
  /\ all_of isdigit "2024" = true
  /\ tokenize "2024" = [ mkToken "2024" TokenType.Number 1 ].
Proof.
  assert (A : "2024" <> EmptyString) by discriminate.
  assert (B : all_of isdigit "2024" = true) by reflexivity.
  split; [exact A|]. split; [exact B|].
  exact (digits_scanned_alone "2024" A B).
Defined.

(** ** The tables *)

(** X16.  Every member of the operator set, scanned on its own, is one
    Operator token, and every delimiter character, scanned on its own, is one
    Delimiter token: no entry of either table is taken by another rule or
    split by a shorter operator. *)
Theorem tables_scanned_alone :
  Forall (fun s => tokenize s = [ mkToken s TokenType.Operator 1 ]) ops
  /\ Forall (fun s => tokenize s = [ mkToken s TokenType.Delimiter 1 ])
            [ ";"; ","; "("; ")"; "{"; "}"; "["; "]" ]
  /\ all_of isDelimiter delims = true.
Proof.
  split; [|split]; [| |reflexivity]; unfold ops;
    repeat (constructor; [reflexivity|]); constructor.
Qed.

(** ** Delimiters *)

Lemma ops_first_no_delimiter : forallb firstIsNoDelimiter ops = true.
Proof. reflexivity. Qed.

(** A delimiter is none of the characters rules 1 to 7 look for. *)
Lemma delimiter_class (c : ascii) :
  isDelimiter c = true ->
  isspace c = false
  /\ Ascii.eqb c "/" = false
  /\ Ascii.eqb c SQUOTE = false
  /\ Ascii.eqb c DQUOTE = false
  /\ isalpha c || Ascii.eqb c "_" = false
  /\ isdigit c = false
  /\ Ascii.eqb c "." = false.
Proof.
  destruct c as [[] [] [] [] [] [] [] []]; intros H;
    solve [discriminate H | repeat split].
Qed.

(** X17.  A delimiter character under the cursor is always pushed as a
    one-character Delimiter token, whatever follows it: no operator begins
    with a delimiter. *)
Theorem delimiter_always_delimiter (code : string) (i : nat) (ln : Z) :
  i < String.length code ->
  isDelimiter (char_at code i) = true ->
  scanStep code i ln
  = (Some (mkToken (String (char_at code i) EmptyString)
             TokenType.Delimiter ln), S i, ln).
Proof.
  intros Hi D.
  destruct (delimiter_class _ D) as (C1 & C2 & C3 & C4 & C5 & C6 & C7).
  assert (M : matchOperator code i 3 = None).
  { destruct (matchOperator code i 3) as [s|] eqn:M; [|reflexivity].
    apply matchOperator_Some in M. destruct M as (A & B & C & O & _).
    apply isOperatorString_In in O.
    pose proof ops_first_no_delimiter as F. rewrite forallb_forall in F.
    specialize (F s O). unfold firstIsNoDelimiter in F.
    rewrite C in F.
    replace (String.length s) with (S (String.length s - 1)) in F by lia.
    rewrite substring_S in F by assumption. simpl in F.
    rewrite D in F. discriminate. }
  unfold scanStep. rewrite C1, C2, C3, C4, C5, C6, C7. simpl.
  unfold operatorRule. rewrite M, D. reflexivity.
Qed.

Lemma delimiter_always_delimiter_witness :
  0 < String.length "(=="
  /\ isDelimiter (char_at "(==" 0) = true
  /\ scanStep "(==" 0 1
     = (Some (mkToken "(" TokenType.Delimiter 1), 1, 1%Z).
Proof.
  assert (A : 0 < String.length "(==") by (simpl; lia).
  assert (B : isDelimiter (char_at "(==" 0) = true) by reflexivity.
  split; [exact A|]. split; [exact B|].
  exact (delimiter_always_delimiter "(==" 0 1 A B).
Defined.

(** ** Printing *)

(** X18.  [tokenTypeToString] gives different names to different token
    types, so the name printed for a token tells its type. *)
Theorem tokenTypeToString_injective (a b : TokenType.t) :
  tokenTypeToString a = tokenTypeToString b -> a = b.
Proof.
  destruct a, b; simpl; intros H; solve [reflexivity | discriminate H].
Qed.

Lemma tokenTypeToString_injective_witness :
  tokenTypeToString TokenType.Char = tokenTypeToString TokenType.Char
  /\ TokenType.Char = TokenType.Char.
Proof.
  split; [reflexivity|].
  exact (tokenTypeToString_injective _ _ eq_refl).
Defined.

(** ** Lexemes and the buffer *)

Lemma all_of_no_space (p : ascii -> bool) (s : string) :
  (forall c, p c = true -> isspace c = false) ->
  all_of p s = true -> any_of isspace s = false.
Proof.
  intros I. induction s as [|c s IH]; simpl; [reflexivity|].
  intros H. bool_prop. rewrite (I c H), (IH H0). reflexivity.
Qed.

Lemma identChar_no_space (c : ascii) : identChar c = true -> isspace c = false.
Proof.
  destruct c as [[] [] [] [] [] [] [] []]; intros H;
    solve [discriminate H | reflexivity].
Qed.

Lemma numberChar_no_space (c : ascii) :
  numberChar c = true -> isspace c = false.
Proof.
  destruct c as [[] [] [] [] [] [] [] []]; intros H;
    solve [discriminate H | reflexivity].
Qed.

(** X19.  Only String and Char tokens can hold white space: the lexeme of a
    token of any other type has no space, tab or line feed in it. *)
Theorem only_literals_hold_whitespace (code : string) (tk : Token) :
  In tk (tokenize code) ->
  type tk <> TokenType.String -> type tk <> TokenType.Char ->
  any_of isspace (lexeme tk) = false.
Proof.
  intros Hin NS NC.
  destruct (tokenize_pushedBy code tk Hin) as (i & ln & i' & ln' & Hi & B & P).
  unfold pushedBy in P.
  assert (Id : forall id,
             identRun (String.length code) code i EmptyString = (id, i') ->
             any_of isspace id = false).
  { intros id R. apply identRun_spec in R.
    destruct R as (_ & _ & C & D & _). simpl in C. rewrite C.
    apply (all_of_no_space identChar); [apply identChar_no_space|].
    apply all_of_span; [lia | lia | exact D]. }
  assert (One : forall c, isspace c = false ->
                  any_of isspace (String c EmptyString) = false)
    by (intros c H; simpl; rewrite H; reflexivity).
  assert (Sp : reachesOperatorRule code i = true ->
               isspace (char_at code i) = false).
  { unfold reachesOperatorRule. intros R.
    repeat (apply andb_true_iff in R; destruct R as [R _]).
    apply negb_true_iff in R. exact R. }
  destruct (type tk) eqn:Ty; try congruence.
  - destruct P as (_ & R & _). apply Id. exact R.
  - destruct P as (_ & R & _). apply Id. exact R.
  - destruct P as [_ PN]. apply parseNumber_chars in PN.
    apply (all_of_no_space numberChar); [apply numberChar_no_space | exact PN].
  - destruct P as [_ M]. apply matchOperator_Some in M.
    destruct M as (_ & _ & _ & O & _).
    apply isOperatorString_wellFormed in O. unfold wellFormedOp in O.
    bool_prop. assumption.
  - destruct P as (R & _ & L & _). rewrite L. apply One, Sp, R.
  - destruct P as (R & _ & L & _). rewrite L. apply One, Sp, R.
Qed.

Lemma only_literals_hold_whitespace_witness :
  In (mkToken "b" TokenType.Identifier 2) (tokenize twoLines)
  /\ TokenType.Identifier <> TokenType.String
  /\ TokenType.Identifier <> TokenType.Char
  /\ any_of isspace "b" = false.
Proof.
  assert (H : In (mkToken "b" TokenType.Identifier 2) (tokenize twoLines))
    by (right; left; reflexivity).
  assert (N1 : TokenType.Identifier <> TokenType.String) by discriminate.
  assert (N2 : TokenType.Identifier <> TokenType.Char) by discriminate.
  split; [exact H|]. split; [exact N1|]. split; [exact N2|].
  exact (only_literals_hold_whitespace twoLines _ H N1 N2).
Defined.

(** X20.  Every lexeme is a stretch of the buffer, starting where the cursor
    stood when the token was scanned: the scanner makes up no character. *)
Theorem lexeme_is_stretch_of_buffer (code : string) (tk : Token) :
  In tk (tokenize code) ->
  exists i j, i < j <= String.length code /\ lexeme tk = span code i j.
Proof.
  intros H. rewrite tokenize_tokensOf in H. apply In_tokensOf in H.
  destruct H as (it & Hin & Htk).
  destruct (iterations_step code it Hin) as [Hi Hs].
  pose proof (scanStep_spec code _ (it_line it) Hi) as S. rewrite Hs in S.
  destruct S as (A & _ & _ & _ & T).
  destruct (T tk Htk) as (_ & _ & _ & [E|(_ & E & R)]).
  - exists (it_pos it), (it_pos' it). split; [lia | exact E].
  - exists (it_pos it), (S (it_pos' it)). split; [|exact E].
    destruct R as (R & _). lia.
Qed.

Lemma lexeme_is_stretch_of_buffer_witness :
  In (mkToken "1e" TokenType.Number 1) (tokenize "1e+z")
  /\ exists i j, i < j <= 4 /\ "1e" = span "1e+z" i j.
Proof.
  assert (H : In (mkToken "1e" TokenType.Number 1) (tokenize "1e+z"))
    by (left; reflexivity).
  split; [exact H|].
  exact (lexeme_is_stretch_of_buffer "1e+z" _ H).
Defined.

(** ** The report *)

Lemma length_spaces (k : nat) : String.length (spaces k) = k.
Proof. induction k; simpl; congruence. Qed.

Lemma length_setw_left (w : nat) (s : string) :
  String.length (setw_left w s) = Nat.max w (String.length s).
Proof. unfold setw_left. rewrite length_append, length_spaces. lia. Qed.

Lemma prefix_append (a b : string) : String.prefix a (a ++ b) = true.
Proof.
  induction a as [|c a IH]; simpl; [destruct b; reflexivity|].
  destruct (ascii_dec c c); [assumption | congruence].
Qed.

Lemma substring_append_r (a b : string) (k : nat) :
  String.substring (String.length a) k (a ++ b) = String.substring 0 k b.
Proof. induction a as [|c a IH]; simpl; [reflexivity | assumption]. Qed.

Lemma substring_append_exact (a b : string) :
  String.substring 0 (String.length a) (a ++ b) = a.
Proof. apply substring_0_append. Qed.

Lemma tokenTypeToString_length (t : TokenType.t) :
  String.length (tokenTypeToString t) <= 10.
Proof. destruct t; simpl; lia. Qed.

(** X21.  A row of the report begins with the lexeme, written whole; when
    the lexeme has at most 30 characters, the separators stand at columns 30
    and 48 and the type name, padded to 15 characters, stands between
    them. *)
Theorem formatRow_layout (t : Token) :
  String.prefix (lexeme t) (formatRow t) = true
  /\ (String.length (lexeme t) <= 30 ->
      String.substring 30 3 (formatRow t) = " | "
      /\ String.substring 33 15 (formatRow t)
         = setw_left 15 (tokenTypeToString (type t))
      /\ String.length (setw_left 15 (tokenTypeToString (type t))) = 15
      /\ String.substring 48 3 (formatRow t) = " | ").
Proof.
  split.
  - unfold formatRow, setw_left. rewrite append_assoc. apply prefix_append.
  - intros H.
    pose proof (tokenTypeToString_length (type t)) as L.
    assert (L1 : String.length (setw_left 30 (lexeme t)) = 30)
      by (rewrite length_setw_left; lia).
    assert (L2 : String.length
                   (setw_left 15 (tokenTypeToString (type t))) = 15)
      by (rewrite length_setw_left; lia).
    unfold formatRow.
    set (a := setw_left 30 (lexeme t)) in *.
    set (b := setw_left 15 (tokenTypeToString (type t))) in *.
    set (r := (setw_left 6 (decimal (line t)) ++ String LF EmptyString)%string).
    split; [|split; [|split]].
    + rewrite <- L1. rewrite substring_append_r.
      simpl. rewrite ?substring_0. reflexivity.
    + replace (a ++ " | " ++ b ++ " | " ++ r)%string
        with ((a ++ " | ") ++ (b ++ " | " ++ r))%string
        by (rewrite append_assoc; reflexivity).
      replace 33 with (String.length (a ++ " | ")%string)
        by (rewrite length_append, L1; reflexivity).
      rewrite substring_append_r. rewrite <- L2.
      apply substring_append_exact.
    + exact L2.
    + replace (a ++ " | " ++ b ++ " | " ++ r)%string
        with ((a ++ " | " ++ b) ++ (" | " ++ r))%string
        by (rewrite !append_assoc; reflexivity).
      replace 48 with (String.length (a ++ " | " ++ b)%string)
        by (rewrite !length_append, L1, L2; reflexivity).
      rewrite substring_append_r.
      simpl. rewrite ?substring_0. reflexivity.
Qed.

Lemma formatRow_layout_witness :
  String.length (lexeme (mkToken "int" TokenType.Keyword 1)) <= 30
  /\ String.substring 33 15 (formatRow (mkToken "int" TokenType.Keyword 1))
     = setw_left 15 "Keyword".
Proof.
  assert (H : String.length (lexeme (mkToken "int" TokenType.Keyword 1)) <= 30)
    by (simpl; lia).
  split; [exact H|].
  exact (proj1 (proj2 (proj2 (formatRow_layout _) H))).
Defined.

(** ** The grammar of numbers *)

Lemma count_of_append (p : ascii -> bool) (a b : string) :
  count_of p (a ++ b) = count_of p a + count_of p b.
Proof. induction a as [|c a IH]; simpl; [reflexivity | rewrite IH; lia]. Qed.

Lemma count_of_push_back (p : ascii -> bool) (s : string) (c : ascii) :
  count_of p (push_back s c) = count_of p s + (if p c then 1 else 0).
Proof. unfold push_back. rewrite count_of_append. simpl. lia. Qed.

Lemma count_of_erase (p : ascii -> bool) (s : string) : forall k,
  count_of p (erase s k) <= count_of p s.
Proof.
  unfold erase. induction s as [|c s IH]; intros k.
  - destruct k; simpl; lia.
  - destruct k as [|k]; simpl; [lia|]. specialize (IH k). lia.
Qed.

Lemma digitRun_count (code : string) (p : ascii -> bool) (fuel : nat) :
  (forall c, isdigit c = true -> p c = false) ->
  forall i lex seen lex' i' seen',
    digitRun fuel code i lex seen = (lex', i', seen') ->
    count_of p lex' = count_of p lex.
Proof.
  intros I. induction fuel as [|fuel IH]; intros i lex seen lex' i' seen' H;
    simpl in H.
  - inv H. reflexivity.
  - case_if; [|inv H; reflexivity]. bool_prop.
    apply IH in H. rewrite H, count_of_push_back, (I _ H1). lia.
Qed.

Lemma digit_not_dot (c : ascii) : isdigit c = true -> isDot c = false.
Proof.
  destruct c as [[] [] [] [] [] [] [] []]; intros H;
    solve [discriminate H | reflexivity].
Qed.

Lemma digit_not_marker (c : ascii) : isdigit c = true -> isMarker c = false.
Proof.
  destruct c as [[] [] [] [] [] [] [] []]; intros H;
    solve [discriminate H | reflexivity].
Qed.

Lemma digit_not_sign (c : ascii) : isdigit c = true -> isSign c = false.
Proof.
  destruct c as [[] [] [] [] [] [] [] []]; intros H;
    solve [discriminate H | reflexivity].
Qed.

(** X22.  The lexeme parseNumber returns has at most one dot, at most one
    exponent marker and at most one sign; a second dot, as in [1.2.3], is
    left for the next token. *)
Theorem number_single_dot (code : string) (i : nat) (num : string)
  (i' : nat) :
  parseNumber code i = (num, i') ->
  count_of isDot num <= 1
  /\ count_of isMarker num <= 1
  /\ count_of isSign num <= 1.
Proof.
  unfold parseNumber.
  destruct (digitRun (String.length code) code i EmptyString false)
    as [[l1 i1] h1] eqn:D1.
  pose proof (digitRun_count code isDot _ digit_not_dot _ _ _ _ _ _ D1) as A1.
  pose proof (digitRun_count code isMarker _ digit_not_marker _ _ _ _ _ _ D1)
    as B1.
  pose proof (digitRun_count code isSign _ digit_not_sign _ _ _ _ _ _ D1)
    as C1.
  simpl in A1, B1, C1.
  destruct (if (i1 <? String.length code) && Ascii.eqb (char_at code i1) "."
            then digitRun (String.length code) code (S i1)
                   (push_back l1 ".") h1
            else (l1, i1, h1)) as [[l2 i2] h2] eqn:D2.
  assert (A2 : count_of isDot l2 <= 1 /\ count_of isMarker l2 = 0
               /\ count_of isSign l2 = 0).
  { case_if; [|inv D2; lia].
    pose proof (digitRun_count code isDot _ digit_not_dot _ _ _ _ _ _ D2) as A.
    pose proof (digitRun_count code isMarker _ digit_not_marker
                  _ _ _ _ _ _ D2) as B.
    pose proof (digitRun_count code isSign _ digit_not_sign _ _ _ _ _ _ D2)
      as C.
    rewrite count_of_push_back in A, B, C. simpl in A, B, C. lia. }
  clear D1 D2 A1 B1 C1. destruct A2 as (A2 & B2 & C2).
  case_if; [|intros R; inv R; lia].
  bool_prop.
  assert (M : isMarker (char_at code i2) = true) by assumption.
  assert (Md : isDot (char_at code i2) = false
               /\ isSign (char_at code i2) = false).
  { unfold isMarker in M. apply orb_true_iff in M.
    destruct M as [M|M]; bool_prop; rewrite M; split; reflexivity. }
  destruct Md as [Md Ms].
  destruct (if (S i2 <? String.length code)
               && (Ascii.eqb (char_at code (S i2)) "+"
                   || Ascii.eqb (char_at code (S i2)) "-")
            then (push_back (push_back l2 (char_at code i2))
                    (char_at code (S i2)), S (S i2))
            else (push_back l2 (char_at code i2), S i2))
    as [l4 i4] eqn:D4.
  assert (A4 : count_of isDot l4 <= 1 /\ count_of isMarker l4 <= 1
               /\ count_of isSign l4 <= 1).
  { case_if; inv D4; rewrite ?count_of_push_back, M, Md, Ms.
    - bool_prop.
      assert (Sg : isSign (char_at code (S i2)) = true) by assumption.
      assert (Sd : isDot (char_at code (S i2)) = false
                   /\ isMarker (char_at code (S i2)) = false).
      { unfold isSign in Sg. apply orb_true_iff in Sg.
        destruct Sg as [Sg|Sg]; bool_prop; rewrite Sg; split; reflexivity. }
      destruct Sd as [Sd Sm]. rewrite Sg, Sd, Sm. lia.
    - lia. }
  destruct (digitRun (String.length code) code i4 l4 false)
    as [[l5 i5] e5] eqn:D5.
  pose proof (digitRun_count code isDot _ digit_not_dot _ _ _ _ _ _ D5) as A5.
  pose proof (digitRun_count code isMarker _ digit_not_marker _ _ _ _ _ _ D5)
    as B5.
  pose proof (digitRun_count code isSign _ digit_not_sign _ _ _ _ _ _ D5)
    as C5.
  destruct (negb e5); intros R; inv R; [|lia].
  pose proof (count_of_erase isDot l5 (String.length l5 - 1)).
  pose proof (count_of_erase isMarker l5 (String.length l5 - 1)).
  pose proof (count_of_erase isSign l5 (String.length l5 - 1)).
  lia.
Qed.

Lemma number_single_dot_witness :
  parseNumber "1.2.3" 0 = ("1.2", 3)
  /\ count_of isDot "1.2" <= 1.
Proof.
  assert (H : parseNumber "1.2.3" 0 = ("1.2", 3)) by reflexivity.
  split; [exact H|].
  exact (proj1 (number_single_dot "1.2.3" 0 _ _ H)).
Defined.

(** ** Keywords are lower case *)

Lemma keywords_lower : forallb (all_of islower) keywords = true.
Proof. reflexivity. Qed.

(** X23.  A Keyword token consists of lower-case letters only: a word with a
    capital letter, a digit or an underscore in it is never a Keyword. *)
Theorem keyword_token_lower_case (code : string) (tk : Token) :
  In tk (tokenize code) ->
  type tk = TokenType.Keyword ->
  all_of islower (lexeme tk) = true.
Proof.
  intros Hin Hty.
  destruct (tokenize_pushedBy code tk Hin) as (i & ln & i' & ln' & _ & _ & P).
  unfold pushedBy in P. rewrite Hty in P. destruct P as (_ & _ & K).
  apply isKeyword_In in K.
  pose proof keywords_lower as L. rewrite forallb_forall in L. auto.
Qed.

Lemma keyword_token_lower_case_witness :
  In (mkToken "int" TokenType.Keyword 1) (tokenize "int x")
  /\ all_of islower "int" = true.
Proof.
  assert (H : In (mkToken "int" TokenType.Keyword 1) (tokenize "int x"))
    by (left; reflexivity).
  split; [exact H|].
  exact (keyword_token_lower_case "int x" _ H eq_refl).
Defined.
